(** * aws-s3-generator: a shallow embedding of the provisioning flow

    The tool asks the operator a few questions (src/utils.ts,
    [userBucketPrompt], [customPolicyNamePrompt], [customPolicyPrompt]),
    then issues a fixed sequence of S3 and IAM calls and finally writes a
    dotenv file (src/index.ts).  The policy-document schema
    ([policySchema]) lives in the module that src/utils.ts imports as
    [./types].

    Modelling conventions.
    - A JavaScript string is the list of its UTF-16 code units, so that
      [length] is [String.prototype.length] and regular expressions
      (compiled without the [u] flag) consume one code unit at a time.
    - [undefined] / [null] are [None].
    - Every effect (AWS call, file access, console line, editor launch,
      operator prompt) is a step of an explicit state-and-error monad
      over a [World]. *)

From Stdlib Require Import Strings.String Strings.Ascii.
From Stdlib Require Import List NArith Bool Lia.
From stdpp Require Import base gmap list.
Import ListNotations.

Set Implicit Arguments.
Set Warnings "-register-all".
Local Open Scope list_scope.

(** ** JavaScript strings *)

Definition jsstring : Type := list N.

(** An ASCII literal of the source, as code units. *)
Definition js (s : string) : jsstring :=
  List.map N_of_ascii (list_ascii_of_string s).
Arguments js s%_string.

Definition unit_of (a : ascii) : N := N_of_ascii a.
Arguments unit_of a%_char.

Definition jsstring_eqb (a b : jsstring) : bool :=
  if decide (a = b) then true else false.

(** [Array.prototype.join]. *)
Fixpoint join (sep : jsstring) (parts : list jsstring) : jsstring :=
  match parts with
  | [] => []
  | [p] => p
  | p :: rest => p ++ sep ++ join sep rest
  end.

(** A template-literal hole [${x}]: [undefined] prints as the word. *)
Definition tmpl (x : option jsstring) : jsstring :=
  match x with
  | Some s => s
  | None => js "undefined"
  end.

(** [a || b] on values of type [string | undefined]: the empty string
    and [undefined] are the falsy ones. *)
Definition or_else (a b : option jsstring) : option jsstring :=
  match a with
  | Some (_ :: _) => a
  | _ => b
  end.

(** ** Regular expressions

    Only what the three patterns of the source need.  [test r s] is
    [/^r$/.test(s)]: both anchors are part of every pattern used. *)

Module Regex.

Inductive class_item : Type :=
| One (c : N)
| Range (lo hi : N).

Definition item_has (c : N) (i : class_item) : bool :=
  match i with
  | One x => N.eqb c x
  | Range lo hi => N.leb lo c && N.leb c hi
  end.

Definition in_class (items : list class_item) (c : N) : bool :=
  existsb (item_has c) items.

(** Line terminators, which [.] refuses without the [s] flag:
    LF, CR, U+2028, U+2029. *)
Definition line_terminator (c : N) : bool :=
  N.eqb c 10 || N.eqb c 13 || N.eqb c 8232 || N.eqb c 8233.

Inductive regex : Type :=
| Void
| Eps
| Chr (c : N)
| Class (items : list class_item)
| Dot
| Cat (r1 r2 : regex)
| Alt (r1 r2 : regex)
| Star (r : regex).

(** [r?] and [r+]. *)
Definition Opt (r : regex) : regex := Alt r Eps.
Definition Plus (r : regex) : regex := Cat r (Star r).

(** A run of literal characters. *)
Fixpoint Lit (s : jsstring) : regex :=
  match s with
  | [] => Eps
  | c :: rest => Cat (Chr c) (Lit rest)
  end.

Fixpoint nullable (r : regex) : bool :=
  match r with
  | Void | Chr _ | Class _ | Dot => false
  | Eps | Star _ => true
  | Cat r1 r2 => nullable r1 && nullable r2
  | Alt r1 r2 => nullable r1 || nullable r2
  end.

Fixpoint deriv (c : N) (r : regex) : regex :=
  match r with
  | Void | Eps => Void
  | Chr x => if N.eqb c x then Eps else Void
  | Class items => if in_class items c then Eps else Void
  | Dot => if line_terminator c then Void else Eps
  | Cat r1 r2 =>
      Alt (Cat (deriv c r1) r2) (if nullable r1 then deriv c r2 else Void)
  | Alt r1 r2 => Alt (deriv c r1) (deriv c r2)
  | Star r1 => Cat (deriv c r1) (Star r1)
  end.

Fixpoint test (r : regex) (s : jsstring) : bool :=
  match s with
  | [] => nullable r
  | c :: rest => test (deriv c r) rest
  end.

(** The language of a pattern, independently of the matcher. *)
Inductive lang : regex -> jsstring -> Prop :=
| lang_eps : lang Eps []
| lang_chr c : lang (Chr c) [c]
| lang_class items c : in_class items c = true -> lang (Class items) [c]
| lang_dot c : line_terminator c = false -> lang Dot [c]
| lang_cat r1 r2 s1 s2 :
    lang r1 s1 -> lang r2 s2 -> lang (Cat r1 r2) (s1 ++ s2)
| lang_alt_l r1 r2 s : lang r1 s -> lang (Alt r1 r2) s
| lang_alt_r r1 r2 s : lang r2 s -> lang (Alt r1 r2) s
| lang_star_nil r : lang (Star r) []
| lang_star_app r s1 s2 :
    lang r s1 -> lang (Star r) s2 -> lang (Star r) (s1 ++ s2).

End Regex.

Import Regex.

(** ** Prompt validators (src/utils.ts) *)

(** What a [validate] callback returns: [true], or the complaint shown
    to the operator. *)
Inductive verdict : Type :=
| VTrue
| VMsg (message : jsstring).

Definition accepted (v : verdict) : bool :=
  match v with VTrue => true | VMsg _ => false end.

(** [/^[a-z0-9.-]+$/] *)
Definition bucketName_re : regex :=
  Plus (Class [Range (unit_of "a") (unit_of "z");
               Range (unit_of "0") (unit_of "9");
               One (unit_of "."); One (unit_of "-")]).

(** [/^[a-zA-Z0-9+=,.@_-]+$/] *)
Definition iamName_re : regex :=
  Plus (Class [Range (unit_of "a") (unit_of "z");
               Range (unit_of "A") (unit_of "Z");
               Range (unit_of "0") (unit_of "9");
               One (unit_of "+"); One (unit_of "="); One (unit_of ",");
               One (unit_of "."); One (unit_of "@"); One (unit_of "_");
               One (unit_of "-")]).

(** [/^https?:\/\/.+$/] *)
Definition appUrl_re : regex :=
  Cat (Lit (js "http"))
      (Cat (Opt (Chr (unit_of "s")))
           (Cat (Lit (js "://")) (Plus Dot))).

(** [validate] of the [bucketName] question. *)
Definition bucketName_validate (input : option jsstring) : verdict :=
  match input with
  | None | Some [] => VMsg (js "Please enter a bucket name")
  | Some s =>
      if length s <? 3 then
        VMsg (js "Bucket name must be at least 3 characters long")
      else if 63 <? length s then
        VMsg (js "Bucket name must be less than 63 characters long")
      else if negb (test bucketName_re s) then
        VMsg (js "Bucket name must be lowercase and contain only letters, numbers, periods, and hyphens")
      else VTrue
  end.

(** [validate] of the [username] question. *)
Definition username_validate (input : option jsstring) : verdict :=
  match input with
  | None | Some [] => VMsg (js "Please enter a username")
  | Some s =>
      if length s <? 3 then
        VMsg (js "Username must be at least 3 characters long")
      else if 63 <? length s then
        VMsg (js "Username must be less than 63 characters long")
      else if negb (test iamName_re s) then
        VMsg (js "Username must contain only letters, numbers, and the following characters: +=,.@_-")
      else VTrue
  end.

(** [validate] of the [appUrl] question. *)
Definition appUrl_validate (input : option jsstring) : verdict :=
  match input with
  | None | Some [] => VMsg (js "Please enter an app URL")
  | Some s =>
      if negb (test appUrl_re s) then
        VMsg (js "App URL must be a valid URL")
      else VTrue
  end.

(** [validate] of the [policyName] question of [customPolicyNamePrompt]. *)
Definition policyName_validate (input : option jsstring) : verdict :=
  match input with
  | None | Some [] => VMsg (js "Please enter a policy name")
  | Some s =>
      if length s <? 3 then
        VMsg (js "Policy name must be at least 3 characters long")
      else if 63 <? length s then
        VMsg (js "Policy name must be less than 63 characters long")
      else if negb (test iamName_re s) then
        VMsg (js "Policy name must contain only letters, numbers, and the following characters: +=,.@_-")
      else VTrue
  end.

(** ** JSON values and [JSON.stringify] *)

(** A value as [JSON.parse] returns it.  A number is carried by its
    canonical decimal rendering (what [Number.prototype.toString]
    prints), which is all the flow ever does with one.  The members
    of an object are listed in property enumeration order. *)
Inductive json : Type :=
| JNull
| JBool (b : bool)
| JNum (lexeme : jsstring)
| JStr (s : jsstring)
| JArr (items : list json)
| JObj (members : list (jsstring * json)).

(** Property read [data[key]]; [None] is [undefined]. *)
Fixpoint get (key : jsstring) (members : list (jsstring * json))
  : option json :=
  match members with
  | [] => None
  | (k, v) :: rest => if jsstring_eqb k key then Some v else get key rest
  end.

Definition field (key : jsstring) (v : json) : option json :=
  match v with
  | JObj members => get key members
  | _ => None
  end.

Definition hex_digit (n : N) : N :=
  if N.ltb n 10 then (48 + n)%N else (87 + n)%N.

(** [\uXXXX], lowercase hexadecimal. *)
Definition unicode_escape (c : N) : jsstring :=
  js "\u" ++ [hex_digit (N.modulo (N.div c 4096) 16);
              hex_digit (N.modulo (N.div c 256) 16);
              hex_digit (N.modulo (N.div c 16) 16);
              hex_digit (N.modulo c 16)].

Definition leading_surrogate (c : N) : bool :=
  N.leb 55296 c && N.leb c 56319.
Definition trailing_surrogate (c : N) : bool :=
  N.leb 56320 c && N.leb c 57343.

(** The body of QuoteJSONString: the short escapes, [\u00XX] for the
    other control characters and for lone surrogates, anything else
    unchanged. *)
Fixpoint quote_body (s : jsstring) : jsstring :=
  match s with
  | [] => []
  | c :: rest =>
      if N.eqb c 8 then js "\b" ++ quote_body rest
      else if N.eqb c 9 then js "\t" ++ quote_body rest
      else if N.eqb c 10 then js "\n" ++ quote_body rest
      else if N.eqb c 12 then js "\f" ++ quote_body rest
      else if N.eqb c 13 then js "\r" ++ quote_body rest
      else if N.eqb c 34 then [92; 34]%N ++ quote_body rest
      else if N.eqb c 92 then [92; 92]%N ++ quote_body rest
      else if N.ltb c 32 then unicode_escape c ++ quote_body rest
      else if leading_surrogate c then
        match rest with
        | d :: rest' =>
            if trailing_surrogate d then c :: d :: quote_body rest'
            else unicode_escape c ++ quote_body rest
        | [] => unicode_escape c
        end
      else if trailing_surrogate c then unicode_escape c ++ quote_body rest
      else c :: quote_body rest
  end.

Definition quote (s : jsstring) : jsstring :=
  [34%N] ++ quote_body s ++ [34%N].

(** The brackets around the serialized elements of an array or an
    object; [gap] is empty for the compact form. *)
Definition bracket (opening closing gap indent : jsstring)
    (parts : list jsstring) : jsstring :=
  match gap with
  | [] => opening ++ join (js ",") parts ++ closing
  | _ =>
      let inner := indent ++ gap in
      opening ++ [10%N] ++ inner ++ join (js "," ++ [10%N] ++ inner) parts
              ++ [10%N] ++ indent ++ closing
  end.

Definition colon (gap : jsstring) : jsstring :=
  match gap with
  | [] => js ":"
  | _ => js ": "
  end.

(** SerializeJSONProperty at indentation [indent]. *)
Fixpoint serialize (gap indent : jsstring) (v : json) : jsstring :=
  match v with
  | JNull => js "null"
  | JBool true => js "true"
  | JBool false => js "false"
  | JNum lexeme => lexeme
  | JStr s => quote s
  | JArr [] => js "[]"
  | JArr items =>
      bracket (js "[") (js "]") gap indent
              (List.map (serialize gap (indent ++ gap)) items)
  | JObj [] => js "{}"
  | JObj members =>
      bracket (js "{") (js "}") gap indent
              (List.map (fun m => quote (fst m) ++ colon gap
                                  ++ serialize gap (indent ++ gap) (snd m))
                        members)
  end.

(** [JSON.stringify(v)] *)
Definition JSON_stringify (v : json) : jsstring := serialize [] [] v.

(** [JSON.stringify(v, null, n)]: [n] spaces per level, at most ten. *)
Definition JSON_stringify_space (v : json) (n : nat) : jsstring :=
  serialize (repeat 32%N (Nat.min n 10)) [] v.

(** ** The schema combinators of zod that [policySchema] uses *)

Module Zod.

Record ZodIssue : Type := {
  code : jsstring;
  message : jsstring
}.

Inductive schema : Type :=
| ZString
| ZLiteral (value : jsstring)
| ZArray (element : schema) (minLength : option (nat * jsstring))
| ZObject (shape : list (jsstring * schema)).

(** [z.array(e)] and [.min(n, { message })]. *)
Definition array (element : schema) : schema := ZArray element None.
Definition min (n : nat) (msg : jsstring) (s : schema) : schema :=
  match s with
  | ZArray element _ => ZArray element (Some (n, msg))
  | _ => s
  end.

Definition getParsedType (data : option json) : jsstring :=
  match data with
  | None => js "undefined"
  | Some JNull => js "null"
  | Some (JBool _) => js "boolean"
  | Some (JNum _) => js "number"
  | Some (JStr _) => js "string"
  | Some (JArr _) => js "array"
  | Some (JObj _) => js "object"
  end.

(** The default error map. *)
Definition invalid_type (expected : jsstring) (data : option json)
  : ZodIssue :=
  {| code := js "invalid_type";
     message :=
       match data with
       | None => js "Required"
       | Some _ => js "Expected " ++ expected ++ js ", received "
                   ++ getParsedType data
       end |}.

Definition invalid_literal (expected : jsstring) : ZodIssue :=
  {| code := js "invalid_literal";
     message := js "Invalid literal value, expected "
                ++ JSON_stringify (JStr expected) |}.

Definition too_small (msg : jsstring) : ZodIssue :=
  {| code := js "too_small"; message := msg |}.

(** The issues [schema.parse(data)] collects; it throws a [ZodError]
    carrying them exactly when there is one.  An object schema reads
    the keys of its shape and ignores every other key of the data
    (the default [strip] mode). *)
Fixpoint issues (s : schema) (data : option json) : list ZodIssue :=
  match s with
  | ZString =>
      match data with
      | Some (JStr _) => []
      | _ => [invalid_type (js "string") data]
      end
  | ZLiteral value =>
      match data with
      | Some (JStr x) =>
          if jsstring_eqb x value then [] else [invalid_literal value]
      | _ => [invalid_literal value]
      end
  | ZArray element minLength =>
      match data with
      | Some (JArr items) =>
          match minLength with
          | Some (n, msg) =>
              if length items <? n then [too_small msg] else []
          | None => []
          end
          ++ flat_map (fun item => issues element (Some item)) items
      | _ => [invalid_type (js "array") data]
      end
  | ZObject shape =>
      match data with
      | Some (JObj members) =>
          flat_map (fun field => issues (snd field) (get (fst field) members))
                   shape
      | _ => [invalid_type (js "object") data]
      end
  end.

End Zod.

(** [policySchema] (the [./types] module). *)
Definition policySchema : Zod.schema :=
  Zod.ZObject [
    (js "Version", Zod.ZLiteral (js "2012-10-17"));
    (js "Statement",
      Zod.array (Zod.ZObject [
        (js "Effect", Zod.ZString);
        (js "Action",
          Zod.min 1 (js "Policy must have at least one action")
                  (Zod.array Zod.ZString));
        (js "Resource",
          Zod.min 1 (js "Policy must have at least one resource")
                  (Zod.array Zod.ZString))
      ]))
  ].

(** ** The world the flow runs in *)

(** [Bun.env] / [process.env]: the four variables the code reads. *)
Record Env : Type := {
  AWS_ACCESS_KEY_ID : option jsstring;
  AWS_SECRET_ACCESS_KEY : option jsstring;
  AWS_DEFAULT_REGION : option jsstring;
  AWS_ACCOUNT_ID : option jsstring
}.

(** The options an [AWS.IAM] or [AWS.S3] client is built with. *)
Record ClientConfig : Type := {
  client_region : option jsstring;
  accessKeyId : option jsstring;
  secretAccessKey : option jsstring
}.

Record PublicAccessBlockConfiguration : Type := {
  BlockPublicAcls : bool;
  IgnorePublicAcls : bool;
  RestrictPublicBuckets : bool;
  BlockPublicPolicy : bool
}.

Record CORSRule : Type := {
  AllowedHeaders : list jsstring;
  AllowedMethods : list jsstring;
  AllowedOrigins : list jsstring;
  ExposeHeaders : list jsstring;
  MaxAgeSeconds : N
}.

(** The SDK operations of src/utils.ts with their parameters. *)
Inductive Operation : Type :=
| IAM_createUser (UserName : jsstring)
| IAM_createPolicy (PolicyName PolicyDocument : jsstring)
| IAM_createAccessKey (UserName : jsstring)
| IAM_attachUserPolicy (UserName PolicyArn : jsstring)
| S3_createBucket (Bucket : jsstring)
| S3_putBucketCors (Bucket : jsstring) (CORSRules : list CORSRule)
| S3_putPublicAccessBlock (Bucket : jsstring)
    (Configuration : PublicAccessBlockConfiguration)
| S3_putBucketPolicy (Bucket Policy : jsstring)
| S3_putObject (Bucket Key : jsstring).

Record Request : Type := {
  client : ClientConfig;
  operation : Operation
}.

(** The [AccessKey] member of a response, as the flow reads it. *)
Record AccessKey : Type := {
  AccessKeyId : option jsstring;
  SecretAccessKey : option jsstring
}.

(** How [.promise()] settles. *)
Inductive Response : Type :=
| Fulfilled (key : option AccessKey)
| Rejected (code : jsstring).

(** What the process does that the outside can observe, in order. *)
Inductive Event : Type :=
| Aws (r : Request)
| ConsoleLog (text : jsstring)
| OpenInEditor (path : jsstring).

Inductive exn : Type :=
| Error (message : jsstring)
| SyntaxError
| AwsError (code : jsstring)
| ENOENT (path : jsstring).

(** One submission of the operator at a prompt: the line typed (read by
    an input question), the choice made (read by a confirm question),
    and whatever was done to the files while the prompt was waiting. *)
Record Reply : Type := {
  line : jsstring;
  yes : bool;
  edits : gmap jsstring jsstring -> gmap jsstring jsstring
}.

Record World : Type := {
  env : Env;
  cloud : list Event -> Request -> Response;
  operator : list Reply;
  files : gmap jsstring jsstring;
  trace : list Event
}.

Definition emit (e : Event) (w : World) : World :=
  {| env := env w; cloud := cloud w; operator := operator w;
     files := files w; trace := trace w ++ [e] |}.

Definition set_files (f : gmap jsstring jsstring) (w : World) : World :=
  {| env := env w; cloud := cloud w; operator := operator w;
     files := f; trace := trace w |}.

Definition set_operator (o : list Reply) (w : World) : World :=
  {| env := env w; cloud := cloud w; operator := o;
     files := files w; trace := trace w |}.

(** How an awaited step ends: with a value, with an exception, or never
    (a prompt nobody answers). *)
Inductive outcome (A : Type) : Type :=
| Returned (a : A)
| Thrown (e : exn)
| Waiting.
Arguments Thrown {A} e.
Arguments Waiting {A}.

Definition M (A : Type) : Type := World -> outcome A * World.

Definition ret {A : Type} (a : A) : M A := fun w => (Returned a, w).

Definition throw {A : Type} (e : exn) : M A := fun w => (Thrown e, w).

Definition bind {A B : Type} (m : M A) (k : A -> M B) : M B :=
  fun w =>
    match m w with
    | (Returned a, w') => k a w'
    | (Thrown e, w') => (Thrown e, w')
    | (Waiting, w') => (Waiting, w')
    end.

Notation "x <- m ;; k" := (bind m (fun x => k))
  (at level 100, m at next level, right associativity).
Notation "m ;; k" := (bind m (fun _ => k))
  (at level 100, right associativity).

Definition getenv : M Env := fun w => (Returned (env w), w).

Definition console_log (text : jsstring) : M unit :=
  fun w => (Returned tt, emit (ConsoleLog text) w).

Definition openInEditor (path : jsstring) : M unit :=
  fun w => (Returned tt, emit (OpenInEditor path) w).

(** [fs.writeFileSync(path, data)]: creates or replaces. *)
Definition writeFileSync (path data : jsstring) : M unit :=
  fun w => (Returned tt, set_files (<[path := data]> (files w)) w).

(** [fs.readFileSync(path, 'utf-8')] *)
Definition readFileSync (path : jsstring) : M jsstring :=
  fun w =>
    match files w !! path with
    | Some data => (Returned data, w)
    | None => (Thrown (ENOENT path), w)
    end.

(** [await client.op(params).promise()] *)
Definition send (c : ClientConfig) (op : Operation) : M (option AccessKey) :=
  fun w =>
    let r := {| client := c; operation := op |} in
    match cloud w (trace w) r with
    | Fulfilled key => (Returned key, emit (Aws r) w)
    | Rejected code => (Thrown (AwsError code), emit (Aws r) w)
    end.

(** ** The provisioner (src/utils.ts) *)

Definition createIamObject (region : option jsstring) : M ClientConfig :=
  e <- getenv ;;
  ret {| client_region := or_else region (AWS_DEFAULT_REGION e);
         accessKeyId := AWS_ACCESS_KEY_ID e;
         secretAccessKey := AWS_SECRET_ACCESS_KEY e |}.

Definition createS3Object (region : option jsstring) : M ClientConfig :=
  e <- getenv ;;
  ret {| client_region := or_else region (AWS_DEFAULT_REGION e);
         accessKeyId := AWS_ACCESS_KEY_ID e;
         secretAccessKey := AWS_SECRET_ACCESS_KEY e |}.

Definition createUser (username : jsstring) (region : option jsstring)
  : M unit :=
  iam <- createIamObject region ;;
  send iam (IAM_createUser username) ;;
  ret tt.

Definition createPolicy (policyName policyDocument : jsstring)
    (region : option jsstring) : M unit :=
  iam <- createIamObject region ;;
  send iam (IAM_createPolicy policyName policyDocument) ;;
  ret tt.

Definition createAccessKey (username : jsstring) (region : option jsstring)
  : M AccessKey :=
  iam <- createIamObject region ;;
  key <- send iam (IAM_createAccessKey username) ;;
  ret match key with
      | Some k => k
      | None => {| AccessKeyId := None; SecretAccessKey := None |}
      end.

Definition attachUserPolicy (username policyArn : jsstring)
    (region : option jsstring) : M unit :=
  iam <- createIamObject region ;;
  send iam (IAM_attachUserPolicy username policyArn) ;;
  ret tt.

Definition createS3Bucket (bucketName : jsstring) (region : option jsstring)
  : M unit :=
  s3 <- createS3Object region ;;
  send s3 (S3_createBucket bucketName) ;;
  ret tt.

Definition attachBucketCors (bucketName : jsstring)
    (corsConfiguration : list CORSRule) (region : option jsstring) : M unit :=
  s3 <- createS3Object region ;;
  send s3 (S3_putBucketCors bucketName corsConfiguration) ;;
  ret tt.

(** The object literal that [attachPublicBucketPolicy] serializes. *)
Definition publicReadPolicy (bucketName : jsstring) : json :=
  JObj [
    (js "Version", JStr (js "2012-10-17"));
    (js "Statement",
      JArr [
        JObj [
          (js "Sid", JStr (js "PublicReadGetObject"));
          (js "Effect", JStr (js "Allow"));
          (js "Principal", JStr (js "*"));
          (js "Action", JArr [JStr (js "s3:GetObject")]);
          (js "Resource",
            JArr [JStr (js "arn:aws:s3:::" ++ bucketName ++ js "/public/*")])
        ]
      ])
  ].

Definition attachPublicBucketPolicy (bucketName : jsstring)
    (region : option jsstring) : M unit :=
  s3 <- createS3Object region ;;
  send s3 (S3_putPublicAccessBlock bucketName
             {| BlockPublicAcls := false;
                IgnorePublicAcls := false;
                RestrictPublicBuckets := false;
                BlockPublicPolicy := false |}) ;;
  send s3 (S3_putBucketPolicy bucketName
             (JSON_stringify (publicReadPolicy bucketName))) ;;
  ret tt.

(** The object literal that [getDefaultUserPolicy] serializes. *)
Definition defaultUserPolicy (bucketName : jsstring) : json :=
  JObj [
    (js "Version", JStr (js "2012-10-17"));
    (js "Statement",
      JArr [
        JObj [
          (js "Effect", JStr (js "Allow"));
          (js "Action",
            JArr [JStr (js "s3:PutObject"); JStr (js "s3:GetObject")]);
          (js "Resource",
            JArr [JStr (js "arn:aws:s3:::" ++ bucketName ++ js "/*")])
        ]
      ])
  ].

Definition getDefaultUserPolicy (bucketName : jsstring)
    (region : option jsstring) : M jsstring :=
  createPolicy
    (js "default-" ++ bucketName ++ js "-policy")
    (JSON_stringify (defaultUserPolicy bucketName))
    region ;;
  console_log (js "Policy created") ;;
  e <- getenv ;;
  ret (js "arn:aws:iam::" ++ tmpl (AWS_ACCOUNT_ID e) ++ js ":policy/default-"
       ++ bucketName ++ js "-policy").

Definition createBucketFolders (bucketName : jsstring)
    (region : option jsstring) : M unit :=
  s3 <- createS3Object region ;;
  send s3 (S3_putObject bucketName (js "public/")) ;;
  send s3 (S3_putObject bucketName (js "private/")) ;;
  ret tt.

(** ** inquirer prompts *)

(** An input question.  A blank line stands for the question's default
    when it has one; the filtered line goes through [validate], and the
    question is asked again until [validate] returns [true]. *)
Fixpoint ask (validate : jsstring -> M verdict) (default : option jsstring)
    (script : list Reply) (w : World) : outcome jsstring * World :=
  match script with
  | [] => (Waiting, w)
  | r :: rest =>
      let input :=
        match line r, default with
        | [], Some d => d
        | l, _ => l
        end in
      match validate input (set_operator rest (set_files (edits r (files w)) w)) with
      | (Returned VTrue, w') => (Returned input, w')
      | (Returned (VMsg _), w') => ask validate default rest w'
      | (Thrown e, w') => (Thrown e, w')
      | (Waiting, w') => (Waiting, w')
      end
  end.

Definition input_question (validate : jsstring -> M verdict)
    (default : option jsstring) : M jsstring :=
  fun w => ask validate default (operator w) w.

(** A confirm question. *)
Definition confirm_question : M bool :=
  fun w =>
    match operator w with
    | [] => (Waiting, w)
    | r :: rest =>
        (Returned (yes r), set_operator rest (set_files (edits r (files w)) w))
    end.

(** A [validate] callback without effects, applied to the line. *)
Definition checking (validate : option jsstring -> verdict)
  : jsstring -> M verdict :=
  fun input => ret (validate (Some input)).

Record UserBucketPrompt : Type := {
  bucketName : jsstring;
  username : jsstring;
  allowPublicRead : bool;
  region : option jsstring;
  defaultPolicy : bool;
  appUrl : jsstring
}.

(** The three validated questions of [userBucketPrompt]. *)
Definition bucketName_question : M jsstring :=
  input_question (checking bucketName_validate) None.

Definition username_question : M jsstring :=
  input_question (checking username_validate) None.

Definition appUrl_question : M jsstring :=
  input_question (checking appUrl_validate) (Some (js "http://localhost:3000")).

Definition userBucketPrompt : M UserBucketPrompt :=
  e <- getenv ;;
  bucketName <- bucketName_question ;;
  username <- username_question ;;
  appUrl <- appUrl_question ;;
  allowPublicRead <- confirm_question ;;
  region <- input_question (fun _ => ret VTrue) (AWS_DEFAULT_REGION e) ;;
  defaultPolicy <- confirm_question ;;
  ret {| bucketName := bucketName;
         username := username;
         allowPublicRead := allowPublicRead;
         region := Some region;
         defaultPolicy := defaultPolicy;
         appUrl := appUrl |}.

Definition customPolicyNamePrompt : M jsstring :=
  input_question (checking policyName_validate) None.

(** What the [policies] question answers once the file has been parsed:
    [policySchema.parse(parsedFile)] inside the [try]. *)
Definition policy_verdict (parsedFile : json) : verdict :=
  match Zod.issues policySchema (Some parsedFile) with
  | [] => VTrue
  | errors => VMsg (join (js ", ") (List.map Zod.message errors))
  end.

Section Flow.

(** [JSON.parse]; [None] when it throws a [SyntaxError]. *)
Variable JSON_parse : jsstring -> option json.

Definition policies_validate : M verdict :=
  file <- readFileSync (js "custom-bucket-policy.json") ;;
  ret match JSON_parse file with
      | Some parsedFile => policy_verdict parsedFile
      | None => VMsg (js "Please enter a valid JSON object")
      end.

Definition customPolicyPrompt : M unit :=
  input_question
    (fun _ => openInEditor (js "custom-bucket-policy.json") ;; ret VTrue)
    None ;;
  input_question (fun _ => policies_validate) None ;;
  ret tt.

(** ** The flow (src/index.ts) *)

Definition separator : jsstring :=
  [10%N] ++ js "-----------------------------------" ++ [10%N].

(** The object literal of lines 32-41. *)
Definition policySkeleton (bucketName : jsstring) : json :=
  JObj [
    (js "Version", JStr (js "2012-10-17"));
    (js "Statement",
      JArr [
        JObj [
          (js "Effect", JStr (js "Allow"));
          (js "Action", JArr []);
          (js "Resource",
            JArr [JStr (js "arn:aws:s3:::" ++ bucketName ++ js "/*")])
        ]
      ])
  ].

(** Lines 27-48: the branch taken when the default policy is refused.
    Its value is what [policyName] holds afterwards. *)
Definition customPolicyStage (bucketName : jsstring)
  : M (option jsstring) :=
  name <- customPolicyNamePrompt ;;
  writeFileSync
    (js "custom-bucket-policy.json")
    (JSON_stringify_space (policySkeleton bucketName) 4) ;;
  customPolicyPrompt ;;
  ret (Some name).

(** Lines 129-133. *)
Definition writeCredentials (key : AccessKey) (bucketName : jsstring)
    (region : option jsstring) : M unit :=
  console_log (js "Creating .env file...") ;;
  writeFileSync
    (js ".env." ++ bucketName)
    (js "AWS_ACCESS_KEY_ID=" ++ tmpl (AccessKeyId key) ++ [10%N]
     ++ js "AWS_SECRET_ACCESS_KEY=" ++ tmpl (SecretAccessKey key) ++ [10%N]
     ++ js "AWS_BUCKET_NAME=" ++ bucketName ++ [10%N]
     ++ js "AWS_REGION=" ++ tmpl region) ;;
  console_log (js "All done!").

(** Lines 50-133, with [policyName] as lines 25-48 left it. *)
Definition provision (a : UserBucketPrompt) (policyName : option jsstring)
  : M unit :=
  console_log (js "Creating S3 bucket...") ;;
  createS3Bucket (bucketName a) (region a) ;;
  console_log (js "Bucket " ++ bucketName a ++ js " created!") ;;
  console_log separator ;;
  console_log (js "Attaching CORS policy to bucket...") ;;
  attachBucketCors
    (bucketName a)
    [ {| AllowedHeaders := [js "*"];
         AllowedMethods := [js "GET"; js "PUT"; js "DELETE"];
         AllowedOrigins := [appUrl a];
         ExposeHeaders := [];
         MaxAgeSeconds := 3000 |} ]
    (region a) ;;
  console_log (js "CORS policy attached!") ;;
  console_log separator ;;
  (if allowPublicRead a then
     console_log (js "Creating public bucket policy...") ;;
     attachPublicBucketPolicy (bucketName a) (region a) ;;
     console_log (js "Public bucket policy created!")
   else ret tt) ;;
  console_log separator ;;
  console_log (js "Creating IAM user...") ;;
  createUser (username a) (region a) ;;
  console_log (js "IAM user created!") ;;
  (if defaultPolicy a then
     console_log (js "Attaching default policy to user...") ;;
     arn <- getDefaultUserPolicy (bucketName a) (region a) ;;
     attachUserPolicy (username a) arn (region a) ;;
     console_log (js "Default policy attached!")
   else
     console_log (js "Creating custom policy...") ;;
     match policyName with
     | None | Some [] => throw (Error (js "Policy name not found"))
     | Some name =>
         policyDocument <- readFileSync (js "custom-bucket-policy.json") ;;
         match JSON_parse policyDocument with
         | None => throw SyntaxError
         | Some parsed =>
             createPolicy name (JSON_stringify parsed) (region a) ;;
             e <- getenv ;;
             attachUserPolicy
               (username a)
               (js "arn:aws:iam::" ++ tmpl (AWS_ACCOUNT_ID e)
                ++ js ":policy/" ++ name)
               (region a)
         end
     end) ;;
  console_log separator ;;
  console_log (js "Creating access key...") ;;
  key <- createAccessKey (username a) (region a) ;;
  console_log (js "Access key created!") ;;
  console_log separator ;;
  writeCredentials key (bucketName a) (region a).

Definition main : M unit :=
  a <- userBucketPrompt ;;
  policyName <- (if negb (defaultPolicy a)
                 then customPolicyStage (bucketName a)
                 else ret None) ;;
  provision a policyName.

End Flow.

(** ** Vocabulary of the statements *)

(** A cloud that fulfils every request. *)
Definition obliging (w : World) : Prop :=
  forall history r, exists key, cloud w history r = Fulfilled key.

(** [triple I P Q m]: started in a world satisfying [I], the step [m]
    keeps [I], only appends events satisfying [P] to the trace, and ends
    in a way satisfying [Q]. *)
Definition triple {A : Type} (I : World -> Prop) (P : Event -> Prop)
    (Q : outcome A -> Prop) (m : M A) : Prop :=
  forall w, I w ->
    I (snd (m w))
    /\ (exists t, trace (snd (m w)) = trace w ++ t /\ Forall P t)
    /\ Q (fst (m w)).

(** A non-empty array of strings. *)
Definition string_array (v : option json) : Prop :=
  exists items,
    v = Some (JArr items) /\ items <> []
    /\ Forall (fun item => exists s, item = JStr s) items.

(** A statement entry as the schema wants it. *)
Definition statement_entry (st : json) : Prop :=
  (exists effect, field (js "Effect") st = Some (JStr effect))
  /\ string_array (field (js "Action") st)
  /\ string_array (field (js "Resource") st)
  /\ exists members, st = JObj members.

(** The documents [policySchema] lets through: an object, whatever
    else it holds, with the version literal and an array of statement
    entries. *)
Definition policy_document (doc : json) : Prop :=
  exists members statements,
    doc = JObj members
    /\ get (js "Version") members = Some (JStr (js "2012-10-17"))
    /\ get (js "Statement") members = Some (JArr statements)
    /\ Forall statement_entry statements.

(** The policy document in the words of the specification: exactly the
    members [Version] and [Statement], the latter a non-empty array. *)
Definition spec_policy_document (doc : json) : Prop :=
  exists version statements,
    doc = JObj [(js "Version", version); (js "Statement", JArr statements)]
    /\ version = JStr (js "2012-10-17")
    /\ statements <> []
    /\ Forall statement_entry statements.

(** The events the later statements single out: an object upload, and
    the two IAM steps that need the policy name. *)
Definition uploads (e : Event) : bool :=
  match e with
  | Aws {| operation := S3_putObject _ _ |} => true
  | _ => false
  end.

Definition policy_step (e : Event) : bool :=
  match e with
  | Aws {| operation := IAM_createPolicy _ _ |} => true
  | Aws {| operation := IAM_attachUserPolicy _ _ |} => true
  | _ => false
  end.

Definition is_request (e : Event) : bool :=
  match e with
  | Aws _ => true
  | _ => false
  end.

(** An outcome sorted by its three shapes. *)
Definition ends {A : Type} (V : A -> Prop) (E : exn -> Prop) (W : Prop)
    (r : outcome A) : Prop :=
  match r with
  | Returned a => V a
  | Thrown e => E e
  | Waiting => W
  end.

(** A property of worlds that only looks at the cloud. *)
Definition stable (I : World -> Prop) : Prop :=
  forall w w', cloud w' = cloud w -> I w -> I w'.

(** The error of line 102. *)
Definition not_found : exn := Error (js "Policy name not found").

(** A well-formed statement entry. *)
Definition sample_statement : json :=
  JObj [(js "Effect", JStr (js "Allow"));
        (js "Action", JArr [JStr (js "s3:GetObject")]);
        (js "Resource", JArr [JStr (js "arn:aws:s3:::my-app-assets/*")])].

(** The two documents the specification names, and one that carries a
    member the schema does not know. *)
Definition empty_statement_document : json :=
  JObj [(js "Version", JStr (js "2012-10-17")); (js "Statement", JArr [])].

Definition extra_member_document : json :=
  JObj [(js "Version", JStr (js "2012-10-17"));
        (js "Id", JStr (js "uploads"));
        (js "Statement", JArr [sample_statement])].

Definition empty_action_document : json :=
  JObj [(js "Version", JStr (js "2012-10-17"));
        (js "Statement",
          JArr [JObj [(js "Effect", JStr (js "Allow"));
                      (js "Action", JArr []);
                      (js "Resource", JArr [JStr (js "arn:...")])]])].

(** The client either service object is built with in world [w]. *)
Definition client_of (w : World) (region : option jsstring) : ClientConfig :=
  {| client_region := or_else region (AWS_DEFAULT_REGION (env w));
     accessKeyId := AWS_ACCESS_KEY_ID (env w);
     secretAccessKey := AWS_SECRET_ACCESS_KEY (env w) |}.

(** A sample run: an account, a cloud that fulfils every request and
    hands out one key, and an operator who types the given replies and
    leaves the files alone. *)
Definition sample_env : Env :=
  {| AWS_ACCESS_KEY_ID := Some (js "AKIAOPERATOR");
     AWS_SECRET_ACCESS_KEY := Some (js "operator-secret");
     AWS_DEFAULT_REGION := Some (js "eu-west-1");
     AWS_ACCOUNT_ID := Some (js "123456789012") |}.

Definition sample_cloud (history : list Event) (r : Request) : Response :=
  match operation r with
  | IAM_createAccessKey _ =>
      Fulfilled (Some {| AccessKeyId := Some (js "AKIADEPLOYER");
                         SecretAccessKey := Some (js "deployer-secret") |})
  | _ => Fulfilled None
  end.

Definition typed (text : string) : Reply :=
  {| line := js text; yes := false; edits := fun f => f |}.

Definition chosen (answer : bool) : Reply :=
  {| line := []; yes := answer; edits := fun f => f |}.

Definition sample_world (script : list Reply) : World :=
  {| env := sample_env; cloud := sample_cloud; operator := script;
     files := ∅; trace := [] |}.

Definition sample_answers : UserBucketPrompt :=
  {| bucketName := js "my-app-assets";
     username := js "deployer";
     allowPublicRead := false;
     region := Some (js "eu-west-1");
     defaultPolicy := false;
     appUrl := js "http://localhost:3000" |}.

(** The policy the sample operator ends up with, and the reply that
    saves a text to the policy file before pressing enter. *)
Definition sample_policy : json :=
  JObj [(js "Version", JStr (js "2012-10-17"));
        (js "Statement", JArr [sample_statement])].

Definition saved (text : jsstring) : Reply :=
  {| line := []; yes := false;
     edits := fun f => <[js "custom-bucket-policy.json" := text]> f |}.

(** A stand-in for [JSON.parse] that knows the two texts of the sample
    run, the skeleton and the edited policy, and refuses the rest. *)
Definition sample_parse (text : jsstring) : option json :=
  if jsstring_eqb text (JSON_stringify_space sample_policy 4) then
    Some sample_policy
  else if jsstring_eqb text
            (JSON_stringify_space (policySkeleton (js "my-app-assets")) 4) then
    Some (policySkeleton (js "my-app-assets"))
  else None.

(** Character descriptions of the two name alphabets. *)
Definition lower (c : N) : Prop := (97 <= c <= 122)%N.
Definition upper (c : N) : Prop := (65 <= c <= 90)%N.
Definition digit (c : N) : Prop := (48 <= c <= 57)%N.

Definition bucket_char (c : N) : Prop :=
  lower c \/ digit c \/ c = unit_of "." \/ c = unit_of "-".

Definition iam_char (c : N) : Prop :=
  lower c \/ upper c \/ digit c
  \/ In c (js "+=,.@_-").

(** ** Vocabulary of the further statements *)

(** [hoare I P V E W m]: started in a world satisfying [I], the step
    [m] only appends events satisfying [P], and leaves a world that
    satisfies [V a] when it returns [a], [E e] when it throws [e] and
    [W] when it waits for the operator. *)
Definition hoare {A : Type} (I : World -> Prop) (P : Event -> Prop)
    (V : A -> World -> Prop) (E : exn -> World -> Prop) (W : World -> Prop)
    (m : M A) : Prop :=
  forall w, I w ->
    (exists t, trace (snd (m w)) = trace w ++ t /\ Forall P t)
    /\ match fst (m w) with
       | Returned a => V a (snd (m w))
       | Thrown e => E e (snd (m w))
       | Waiting => W (snd (m w))
       end.

(** The requests among some events, in order. *)
Definition requests (t : list Event) : list Request :=
  flat_map (fun e => match e with Aws r => [r] | _ => [] end) t.

(** Names that went through their validator. *)
Definition checked_bucket (b : jsstring) : Prop :=
  accepted (bucketName_validate (Some b)) = true.

Definition checked_user (u : jsstring) : Prop :=
  accepted (username_validate (Some u)) = true.

Definition checked_url (u : jsstring) : Prop :=
  accepted (appUrl_validate (Some u)) = true.

Definition checked_policy_name (n : jsstring) : Prop :=
  accepted (policyName_validate (Some n)) = true.

Definition checked_answers (a : UserBucketPrompt) : Prop :=
  checked_bucket (bucketName a)
  /\ checked_user (username a)
  /\ checked_url (appUrl a)
  /\ exists r, region a = Some r.

(** A request whose names all went through their validators: the
    bucket, the user, the origins of a CORS rule, and the policy name,
    which is either a validated one or the default name of a validated
    bucket. *)
Definition names_checked (e : Event) : Prop :=
  match e with
  | Aws {| operation := op |} =>
      match op with
      | IAM_createUser u | IAM_createAccessKey u => checked_user u
      | IAM_attachUserPolicy u _ => checked_user u
      | IAM_createPolicy n _ =>
          checked_policy_name n
          \/ exists b, checked_bucket b
                       /\ n = js "default-" ++ b ++ js "-policy"
      | S3_createBucket b | S3_putPublicAccessBlock b _ => checked_bucket b
      | S3_putBucketPolicy b _ | S3_putObject b _ => checked_bucket b
      | S3_putBucketCors b rules =>
          checked_bucket b
          /\ Forall (fun rule => Forall checked_url (AllowedOrigins rule)) rules
      end
  | _ => True
  end.

Definition policy_path : jsstring := js "custom-bucket-policy.json".

(** A step that stops at the first rejected request: the cloud is left
    as it was, a rejected request is the last event and is what the
    step throws, and an [AwsError] only ever comes from a rejected
    request, with its code. *)
Definition fail_fast {A : Type} (m : M A) : Prop :=
  forall w,
    cloud (snd (m w)) = cloud w
    /\ exists t,
         trace (snd (m w)) = trace w ++ t
         /\ (forall t1 q t2 code,
               t = t1 ++ Aws q :: t2 ->
               cloud w (trace w ++ t1) q = Rejected code ->
               t2 = [] /\ fst (m w) = Thrown (AwsError code))
         /\ (forall code,
               fst (m w) = Thrown (AwsError code) ->
               exists t1 q,
                 t = t1 ++ [Aws q]
                 /\ cloud w (trace w ++ t1) q = Rejected code).

(** A cloud in which the user and the policy already exist. *)
Definition taken_cloud (history : list Event) (r : Request) : Response :=
  match operation r with
  | IAM_createUser _ | IAM_createPolicy _ _ =>
      Rejected (js "EntityAlreadyExists")
  | _ => Fulfilled None
  end.

Definition taken_world (script : list Reply) : World :=
  {| env := sample_env; cloud := taken_cloud; operator := script;
     files := ∅; trace := [] |}.

(** The one CORS rule of the flow, for the given origin. *)
Definition cors_rule (origin : jsstring) : CORSRule :=
  {| AllowedHeaders := [js "*"];
     AllowedMethods := [js "GET"; js "PUT"; js "DELETE"];
     AllowedOrigins := [origin];
     ExposeHeaders := [];
     MaxAgeSeconds := 3000 |}.

(** The operations that set the bucket up, and the three around the
    policy that concern the user. *)
Definition bucket_operations (a : UserBucketPrompt) : list Operation :=
  [S3_createBucket (bucketName a);
   S3_putBucketCors (bucketName a) [cors_rule (appUrl a)]]
  ++ (if allowPublicRead a then
        [S3_putPublicAccessBlock (bucketName a)
           {| BlockPublicAcls := false;
              IgnorePublicAcls := false;
              RestrictPublicBuckets := false;
              BlockPublicPolicy := false |};
         S3_putBucketPolicy (bucketName a)
           (JSON_stringify (publicReadPolicy (bucketName a)))]
      else []).

Definition with_client (c : ClientConfig) (ops : list Operation)
  : list Request :=
  List.map (fun op => {| client := c; operation := op |}) ops.

(** A policy document with the given statements. *)
Definition document_of (statements : list json) : json :=
  JObj [(js "Version", JStr (js "2012-10-17"));
        (js "Statement", JArr statements)].


(** More of the sample run: the answers and the script of a run with
    the default policy, a world in which the operator has already
    saved the sample policy, one without an account id, and a reply
    that removes the policy file. *)
Definition sample_default_answers : UserBucketPrompt :=
  {| bucketName := js "my-app-assets";
     username := js "deployer";
     allowPublicRead := false;
     region := Some (js "us-east-1");
     defaultPolicy := true;
     appUrl := js "https://app.example.com" |}.

Definition sample_default_script : list Reply :=
  [typed "my-app-assets"; typed "deployer"; typed "https://app.example.com";
   chosen false; typed "us-east-1"; chosen true].

Definition edited_world : World :=
  {| env := sample_env; cloud := sample_cloud; operator := [];
     files := {[policy_path := JSON_stringify_space sample_policy 4]};
     trace := [] |}.

Definition no_account_world : World :=
  {| env := {| AWS_ACCESS_KEY_ID := Some (js "AKIAOPERATOR");
               AWS_SECRET_ACCESS_KEY := Some (js "operator-secret");
               AWS_DEFAULT_REGION := Some (js "eu-west-1");
               AWS_ACCOUNT_ID := None |};
     cloud := sample_cloud; operator := []; files := ∅; trace := [] |}.



(** The exceptions that can come out of the flow. *)
Definition aws_or_missing (e : exn) : Prop :=
  (exists code, e = AwsError code) \/ e = ENOENT policy_path.

(** The policy file holds a text that parses into a document the
    schema lets through. *)
Definition policy_file_ready (parse : jsstring -> option json) (w : World)
  : Prop :=
  exists text doc,
    files w !! policy_path = Some text
    /\ parse text = Some doc
    /\ policy_document doc.

(** A [createPolicy] request carries the serialization of a document
    the schema lets through. *)
Definition policy_checked (e : Event) : Prop :=
  match e with
  | Aws {| operation := IAM_createPolicy _ text |} =>
      exists doc, text = JSON_stringify doc /\ policy_document doc
  | _ => True
  end.

(** ** Regular expressions: the matcher decides the language *)

Lemma nullable_lang r : nullable r = true <-> lang r [].
Proof.
  induction r; simpl; split; intros H;
    try discriminate; try reflexivity; try (inversion H; fail).
  - constructor.
  - apply andb_true_iff in H as [H1 H2].
    change (@nil N) with (@nil N ++ []).
    constructor; [apply IHr1 | apply IHr2]; assumption.
  - inversion H as [| | | | ? ? s1 s2 L1 L2 | | | |]; subst.
    match goal with E : _ ++ _ = [] |- _ => apply app_eq_nil in E as [-> ->] end.
    apply andb_true_iff; split; [apply IHr1 | apply IHr2]; assumption.
  - apply orb_true_iff in H as [H | H];
      [apply lang_alt_l, IHr1 | apply lang_alt_r, IHr2]; assumption.
  - apply orb_true_iff.
    inversion H; subst; [left; apply IHr1 | right; apply IHr2]; assumption.
  - constructor.
Qed.

Lemma lang_star_cons r c s :
  lang (Star r) (c :: s) ->
  exists s1 s2, s = s1 ++ s2 /\ lang r (c :: s1) /\ lang (Star r) s2.
Proof.
  remember (Star r) as r' eqn:Er. remember (c :: s) as x eqn:Ex.
  intros H. revert Er Ex.
  induction H as [| | | | | | | | r0 s1 s2 H1 _ H2 IH2];
    intros Er Ex; try discriminate.
  injection Er as ->.
  destruct s1 as [| c1 s1]; simpl in Ex.
  - apply IH2; [reflexivity | assumption].
  - injection Ex as -> <-. exists s1, s2. auto.
Qed.

Lemma deriv_lang c r : forall s, lang (deriv c r) s <-> lang r (c :: s).
Proof.
  induction r; intros s; simpl.
  - split; intros H; inversion H.
  - split; intros H; inversion H.
  - destruct (N.eqb_spec c c0) as [-> | Hne]; split; intros H;
      inversion H; subst; try constructor; congruence.
  - destruct (in_class items c) eqn:Hc; split; intros H;
      inversion H; subst; try constructor; congruence.
  - destruct (line_terminator c) eqn:Hc; split; intros H;
      inversion H; subst; try constructor; congruence.
  - split; intros H.
    + inversion H as [| | | | | ? ? ? L | ? ? ? L | |]; subst.
      * inversion L as [| | | | ? ? s1 s2 L1 L2 | | | |]; subst.
        change (c :: s1 ++ s2) with ((c :: s1) ++ s2).
        constructor; [apply IHr1 |]; assumption.
      * destruct (nullable r1) eqn:Hn; [| inversion L].
        change (c :: s) with ([] ++ c :: s).
        constructor; [apply nullable_lang | apply IHr2]; assumption.
    + inversion H as [| | | | ? ? s1 s2 L1 L2 E | | | |]; subst.
      destruct s1 as [| c1 s1]; simpl in *.
      * subst s2. apply lang_alt_r.
        apply nullable_lang in L1. rewrite L1. apply IHr2; assumption.
      * match goal with E : _ :: _ = _ :: _ |- _ => injection E as -> <- end.
        apply lang_alt_l. constructor; [apply IHr1 |]; assumption.
  - split; intros H; inversion H; subst;
      [apply lang_alt_l, IHr1 | apply lang_alt_r, IHr2
       | apply lang_alt_l, IHr1 | apply lang_alt_r, IHr2]; assumption.
  - split; intros H.
    + inversion H as [| | | | ? ? s1 s2 L1 L2 | | | |]; subst.
      change (c :: s1 ++ s2) with ((c :: s1) ++ s2).
      constructor; [apply IHr |]; assumption.
    + apply lang_star_cons in H as (s1 & s2 & -> & L1 & L2).
      constructor; [apply IHr |]; assumption.
Qed.

Lemma test_lang r s : test r s = true <-> lang r s.
Proof.
  revert r. induction s as [| c s IH]; intros r; simpl.
  - apply nullable_lang.
  - rewrite IH. apply deriv_lang.
Qed.

(** One or more units of a one-unit pattern. *)
Lemma lang_star_units r (p : N -> Prop) :
  (forall s, lang r s <-> exists c, s = [c] /\ p c) ->
  forall s, lang (Star r) s <-> Forall p s.
Proof.
  intros Hr s. split.
  - remember (Star r) as r' eqn:Er. intros H. revert Er.
    induction H as [| | | | | | | | r0 s1 s2 H1 _ _ IH2];
      intros Er; try discriminate.
    + constructor.
    + injection Er as ->.
      apply Hr in H1 as (c & -> & Hc). simpl. constructor; auto.
  - induction 1 as [| c s Hc _ IH].
    + constructor.
    + change (c :: s) with ([c] ++ s).
      constructor; [apply Hr; eauto | assumption].
Qed.

Lemma lang_plus_units r (p : N -> Prop) :
  (forall s, lang r s <-> exists c, s = [c] /\ p c) ->
  forall s, lang (Plus r) s <-> s <> [] /\ Forall p s.
Proof.
  intros Hr s. unfold Plus. split.
  - intros H. inversion H as [| | | | ? ? s1 s2 L1 L2 | | | |]; subst.
    apply Hr in L1 as (c & -> & Hc).
    apply (@lang_star_units _ _ Hr) in L2.
    split; [discriminate | constructor; assumption].
  - intros [Hne H]. destruct H as [| c s Hc H]; [congruence |].
    change (c :: s) with ([c] ++ s).
    constructor; [apply Hr; eauto | apply (@lang_star_units _ _ Hr); assumption].
Qed.

Lemma lang_class_unit items s :
  lang (Class items) s <-> exists c, s = [c] /\ in_class items c = true.
Proof.
  split.
  - intros H. inversion H; subst. eauto.
  - intros (c & -> & Hc). constructor. assumption.
Qed.

Lemma lang_dot_unit s :
  lang Dot s <-> exists c, s = [c] /\ line_terminator c = false.
Proof.
  split.
  - intros H. inversion H; subst. eauto.
  - intros (c & -> & Hc). constructor. assumption.
Qed.

Lemma lang_cat_chr c r s :
  lang (Cat (Chr c) r) s <-> exists rest, s = c :: rest /\ lang r rest.
Proof.
  split.
  - intros H. inversion H as [| | | | ? ? s1 s2 L1 L2 | | | |]; subst.
    inversion L1; subst. simpl. eauto.
  - intros (rest & -> & H). change (c :: rest) with ([c] ++ rest).
    constructor; [constructor | assumption].
Qed.

Lemma lang_cat_eps r s : lang (Cat Eps r) s <-> lang r s.
Proof.
  split.
  - intros H. inversion H as [| | | | ? ? s1 s2 L1 L2 | | | |]; subst.
    inversion L1; subst. assumption.
  - intros H. change s with ([] ++ s). constructor; [constructor | assumption].
Qed.

Lemma lang_cat_assoc r1 r2 r3 s :
  lang (Cat (Cat r1 r2) r3) s <-> lang (Cat r1 (Cat r2 r3)) s.
Proof.
  split; intros H.
  - inversion H as [| | | | ? ? s12 s3 L12 L3 | | | |]; subst.
    inversion L12 as [| | | | ? ? s1 s2 L1 L2 | | | |]; subst.
    rewrite <- List.app_assoc. repeat constructor; assumption.
  - inversion H as [| | | | ? ? s1 s23 L1 L23 | | | |]; subst.
    inversion L23 as [| | | | ? ? s2 s3 L2 L3 | | | |]; subst.
    rewrite List.app_assoc. repeat constructor; assumption.
Qed.

(** A literal prefix. *)
Lemma lang_cat_lit l r : forall s,
  lang (Cat (Lit l) r) s <-> exists rest, s = l ++ rest /\ lang r rest.
Proof.
  induction l as [| c l IH]; intros s; simpl.
  - rewrite lang_cat_eps. split; [eauto | intros (rest & -> & H); assumption].
  - rewrite lang_cat_assoc, lang_cat_chr. split.
    + intros (rest & -> & H). apply IH in H as (rest' & -> & H). eauto.
    + intros (rest & -> & H). eexists. split; [reflexivity |].
      apply IH. eauto.
Qed.

Lemma lang_cat_opt c r s :
  lang (Cat (Opt (Chr c)) r) s
  <-> lang r s \/ exists rest, s = c :: rest /\ lang r rest.
Proof.
  unfold Opt. split.
  - intros H. inversion H as [| | | | ? ? s1 s2 L1 L2 | | | |]; subst.
    inversion L1 as [| | | | | ? ? ? L | ? ? ? L | |]; subst;
      inversion L; subst; simpl; eauto.
  - intros [H | (rest & -> & H)].
    + change s with ([] ++ s). constructor; [apply lang_alt_r; constructor | assumption].
    + change (c :: rest) with ([c] ++ rest).
      constructor; [apply lang_alt_l; constructor | assumption].
Qed.

Lemma bucket_class_char c :
  in_class [Range (unit_of "a") (unit_of "z");
            Range (unit_of "0") (unit_of "9");
            One (unit_of "."); One (unit_of "-")] c = true
  <-> bucket_char c.
Proof.
  unfold in_class, bucket_char, lower, digit, unit_of. simpl.
  rewrite !orb_true_iff, !andb_true_iff, !N.leb_le, !N.eqb_eq.
  intuition lia.
Qed.

Lemma iam_class_char c :
  in_class [Range (unit_of "a") (unit_of "z");
            Range (unit_of "A") (unit_of "Z");
            Range (unit_of "0") (unit_of "9");
            One (unit_of "+"); One (unit_of "="); One (unit_of ",");
            One (unit_of "."); One (unit_of "@"); One (unit_of "_");
            One (unit_of "-")] c = true
  <-> iam_char c.
Proof.
  unfold in_class, iam_char, lower, upper, digit, unit_of. simpl.
  rewrite !orb_true_iff, !andb_true_iff, !N.leb_le, !N.eqb_eq.
  intuition (try lia; auto).
Qed.

Lemma bucketName_re_chars s :
  lang bucketName_re s <-> s <> [] /\ Forall bucket_char s.
Proof.
  unfold bucketName_re. apply lang_plus_units. intros s'.
  rewrite lang_class_unit. split; intros (c & -> & H); exists c;
    (split; [reflexivity | apply bucket_class_char; assumption]).
Qed.

Lemma iamName_re_chars s :
  lang iamName_re s <-> s <> [] /\ Forall iam_char s.
Proof.
  unfold iamName_re. apply lang_plus_units. intros s'.
  rewrite lang_class_unit. split; intros (c & -> & H); exists c;
    (split; [reflexivity | apply iam_class_char; assumption]).
Qed.

Lemma appUrl_re_shape s :
  lang appUrl_re s
  <-> exists rest,
        (s = js "http://" ++ rest \/ s = js "https://" ++ rest)
        /\ rest <> [] /\ Forall (fun c => line_terminator c = false) rest.
Proof.
  unfold appUrl_re. rewrite lang_cat_lit. split.
  - intros (r1 & -> & H). apply lang_cat_opt in H as [H | (r2 & -> & H)];
      apply lang_cat_lit in H as (r3 & -> & H);
      apply (@lang_plus_units _ _ lang_dot_unit) in H; exists r3; auto.
  - intros (rest & [-> | ->] & H); apply (@lang_plus_units _ _ lang_dot_unit) in H.
    + exists (js "://" ++ rest). split; [reflexivity |].
      apply lang_cat_opt. left. apply lang_cat_lit. eauto.
    + exists (unit_of "s" :: js "://" ++ rest). split; [reflexivity |].
      apply lang_cat_opt. right. eexists. split; [reflexivity |].
      apply lang_cat_lit. eauto.
Qed.

(** The length-then-pattern gate that the three name validators share. *)
Lemma name_gate re m1 m2 m3 s :
  accepted (if length s <? 3 then VMsg m1
            else if 63 <? length s then VMsg m2
            else if negb (test re s) then VMsg m3
            else VTrue) = true
  <-> 3 <= length s <= 63 /\ lang re s.
Proof.
  rewrite <- test_lang.
  destruct (Nat.ltb_spec (length s) 3); simpl; [intuition (try discriminate; lia) |].
  destruct (Nat.ltb_spec 63 (length s)); simpl; [intuition (try discriminate; lia) |].
  destruct (test re s); simpl; intuition (try discriminate; lia).
Qed.

(** ** The prompt validators accept what they should *)

(** C4. The bucket-name validator accepts a string exactly when its
    length is between 3 and 63 and it matches [^[a-z0-9.-]+$], that is,
    when it is a non-empty run of lowercase letters, digits, periods
    and hyphens; "ab" and "My-Bucket" are refused, "my-bucket.1" is
    accepted. *)
Theorem bucketName_validate_spec :
  (forall s,
     accepted (bucketName_validate (Some s)) = true
     <-> 3 <= length s <= 63 /\ lang bucketName_re s)
  /\ (forall s, lang bucketName_re s <-> s <> [] /\ Forall bucket_char s)
  /\ accepted (bucketName_validate (Some (js "ab"))) = false
  /\ accepted (bucketName_validate (Some (js "My-Bucket"))) = false
  /\ accepted (bucketName_validate (Some (js "my-bucket.1"))) = true.
Proof.
  split; [| split; [exact bucketName_re_chars | repeat split; reflexivity]].
  intros [| c s].
  - simpl. split; [discriminate | intros [[H _] _]; inversion H].
  - apply name_gate.
Qed.

(** C5. The username validator and the policy-name validator each
    accept a string exactly when its length is between 3 and 63 and it
    matches [^[a-zA-Z0-9+=,.@_-]+$]; "jo" and "jo#doe" are refused,
    "jo.doe_1" is accepted; both accept the same inputs. *)
Theorem iam_name_validate_spec :
  (forall s,
     accepted (username_validate (Some s)) = true
     <-> 3 <= length s <= 63 /\ lang iamName_re s)
  /\ (forall s,
        accepted (policyName_validate (Some s)) = true
        <-> 3 <= length s <= 63 /\ lang iamName_re s)
  /\ (forall s, lang iamName_re s <-> s <> [] /\ Forall iam_char s)
  /\ (forall input,
        accepted (username_validate input)
        = accepted (policyName_validate input))
  /\ accepted (username_validate (Some (js "jo"))) = false
  /\ accepted (username_validate (Some (js "jo#doe"))) = false
  /\ accepted (username_validate (Some (js "jo.doe_1"))) = true
  /\ accepted (policyName_validate (Some (js "jo"))) = false
  /\ accepted (policyName_validate (Some (js "jo#doe"))) = false
  /\ accepted (policyName_validate (Some (js "jo.doe_1"))) = true.
Proof.
  split; [| split; [| split; [exact iamName_re_chars | split;
    [| repeat split; reflexivity]]]].
  - intros [| c s].
    + simpl. split; [discriminate | intros [[H _] _]; inversion H].
    + apply name_gate.
  - intros [| c s].
    + simpl. split; [discriminate | intros [[H _] _]; inversion H].
    + apply name_gate.
  - intros [[| c s] |]; try reflexivity.
    unfold username_validate, policyName_validate.
    destruct (length (c :: s) <? 3); [reflexivity |].
    destruct (63 <? length (c :: s)); [reflexivity |].
    destruct (test iamName_re (c :: s)); reflexivity.
Qed.

(** C6. The app-URL validator accepts a string exactly when it matches
    [^https?://.+$], that is, when it is [http://] or [https://]
    followed by at least one unit and no line terminator; a blank line
    at the app-URL question is answered by the default
    [http://localhost:3000]. *)
Theorem appUrl_validate_spec :
  (forall s, accepted (appUrl_validate (Some s)) = true <-> lang appUrl_re s)
  /\ (forall s,
        lang appUrl_re s
        <-> exists rest,
              (s = js "http://" ++ rest \/ s = js "https://" ++ rest)
              /\ rest <> []
              /\ Forall (fun c => line_terminator c = false) rest)
  /\ (forall w r rest,
        operator w = r :: rest ->
        line r = [] ->
        appUrl_question w
        = (Returned (js "http://localhost:3000"),
           set_operator rest (set_files (edits r (files w)) w))).
Proof.
  split; [| split; [exact appUrl_re_shape |]].
  - intros [| c s].
    + simpl. split; [discriminate | intros H].
      apply appUrl_re_shape in H as (rest & [H | H] & _); discriminate.
    + unfold appUrl_validate. rewrite <- test_lang.
      destruct (test appUrl_re (c :: s)); simpl; intuition discriminate.
  - intros w r rest Hop Hline.
    unfold appUrl_question, input_question. rewrite Hop.
    cbn [ask]. rewrite Hline. reflexivity.
Qed.

(** ** Policy-document validation *)

Lemma flat_map_nil {A B : Type} (f : A -> list B) (l : list A) :
  flat_map f l = [] <-> Forall (fun x => f x = []) l.
Proof.
  induction l as [| x l IH]; simpl.
  - split; constructor.
  - split.
    + intros H. apply app_eq_nil in H as [Hx Hl].
      constructor; [assumption | apply IH; assumption].
    + intros H. inversion H as [| ? ? Hx Hl]; subst.
      rewrite Hx. simpl. apply IH; assumption.
Qed.

Lemma jsstring_eqb_eq a b : jsstring_eqb a b = true <-> a = b.
Proof.
  unfold jsstring_eqb. destruct (decide (a = b)); intuition discriminate.
Qed.

Lemma issues_string_array msg v :
  Zod.issues (Zod.min 1 msg (Zod.array Zod.ZString)) v = []
  <-> string_array v.
Proof.
  unfold string_array. simpl. split.
  - destruct v as [[| | | | items |] |]; try discriminate.
    intros H. apply app_eq_nil in H as [Hmin Hitems].
    exists items. split; [reflexivity | split].
    + destruct items; [discriminate | discriminate].
    + apply flat_map_nil in Hitems.
      eapply List.Forall_impl; [| exact Hitems].
      intros [| | | s | |]; simpl; try discriminate. eauto.
  - intros (items & -> & Hne & Hall).
    replace (length items <? 1) with false
      by (destruct items; [congruence | reflexivity]).
    simpl. apply flat_map_nil. eapply List.Forall_impl; [| exact Hall].
    intros item [s ->]. reflexivity.
Qed.

Lemma issues_statement st :
  Zod.issues
    (Zod.ZObject [
       (js "Effect", Zod.ZString);
       (js "Action",
         Zod.min 1 (js "Policy must have at least one action")
                 (Zod.array Zod.ZString));
       (js "Resource",
         Zod.min 1 (js "Policy must have at least one resource")
                 (Zod.array Zod.ZString))
     ]) (Some st) = []
  <-> statement_entry st.
Proof.
  unfold statement_entry.
  destruct st as [| | | | | members];
    try (split; [discriminate | intros (_ & _ & _ & m & H); discriminate]).
  cbn [Zod.issues flat_map fst snd field].
  rewrite List.app_nil_r.
  change (match get (js "Action") members with
          | Some (JArr items) =>
              (if length items <? 1
               then [Zod.too_small (js "Policy must have at least one action")]
               else []) ++
              flat_map (fun item => Zod.issues Zod.ZString (Some item)) items
          | _ => [Zod.invalid_type (js "array") (get (js "Action") members)]
          end)
    with (Zod.issues (Zod.min 1 (js "Policy must have at least one action")
                              (Zod.array Zod.ZString))
                     (get (js "Action") members)).
  change (match get (js "Resource") members with
          | Some (JArr items) =>
              (if length items <? 1
               then [Zod.too_small (js "Policy must have at least one resource")]
               else []) ++
              flat_map (fun item => Zod.issues Zod.ZString (Some item)) items
          | _ => [Zod.invalid_type (js "array") (get (js "Resource") members)]
          end)
    with (Zod.issues (Zod.min 1 (js "Policy must have at least one resource")
                              (Zod.array Zod.ZString))
                     (get (js "Resource") members)).
  split.
  - intros H. apply app_eq_nil in H as [He H].
    apply app_eq_nil in H as [Ha Hr].
    apply issues_string_array in Ha, Hr.
    repeat split; eauto.
    destruct (get (js "Effect") members) as [[| | | e | |] |];
      try discriminate. eauto.
  - intros ([e He] & Ha & Hr & _).
    rewrite He.
    rewrite (proj2 (issues_string_array _ _) Ha).
    rewrite (proj2 (issues_string_array _ _) Hr).
    reflexivity.
Qed.

Lemma policy_verdict_document doc :
  accepted (policy_verdict doc) = true <-> policy_document doc.
Proof.
  unfold policy_verdict.
  transitivity (Zod.issues policySchema (Some doc) = []).
  { destruct (Zod.issues policySchema (Some doc)); simpl;
      intuition discriminate. }
  unfold policy_document.
  destruct doc as [| | | | | members];
    try (split; [discriminate | intros (m & sts & H & _); discriminate]).
  unfold policySchema.
  cbn [Zod.issues flat_map fst snd Zod.array].
  rewrite List.app_nil_r. split.
  - intros H. apply app_eq_nil in H as [Hv Hs].
    exists members.
    destruct (get (js "Version") members) as [[| | | v | |] |];
      try discriminate.
    destruct (jsstring_eqb v (js "2012-10-17")) eqn:Ev; [| discriminate].
    apply jsstring_eqb_eq in Ev as ->.
    destruct (get (js "Statement") members) as [[| | | | sts |] |];
      try discriminate.
    exists sts. repeat split.
    simpl in Hs. apply flat_map_nil in Hs.
    eapply List.Forall_impl; [| exact Hs].
    intros st Hst. apply issues_statement. exact Hst.
  - intros (m & sts & Hm & Hv & Hs & Hall). injection Hm as <-.
    rewrite Hv, Hs.
    replace (jsstring_eqb (js "2012-10-17") (js "2012-10-17")) with true
      by (symmetry; apply jsstring_eqb_eq; reflexivity).
    simpl. apply flat_map_nil.
    eapply List.Forall_impl; [| exact Hall].
    intros st Hst. apply issues_statement. exact Hst.
Qed.

(** The empty [Statement] array passes the schema, and so does a
    document with a member besides [Version] and [Statement], against
    the specification's reading of the policy document. *)
Lemma empty_statement_accepted :
  (accepted (policy_verdict empty_statement_document) = true
   /\ ~ spec_policy_document empty_statement_document)
  /\ (accepted (policy_verdict extra_member_document) = true
      /\ ~ spec_policy_document extra_member_document).
Proof.
  split; (split; [reflexivity |]).
  - intros (version & statements & Hdoc & _ & Hne & _).
    injection Hdoc as _ <-. congruence.
  - intros (version & statements & Hdoc & _).
    unfold extra_member_document in Hdoc. discriminate.
Qed.

Section FlowFacts.

Variable JSON_parse : jsstring -> option json.

(** C1 (as amended). Validation accepts a parsed value exactly when
    it is an object whose [Version] is the literal "2012-10-17" and
    whose [Statement] is an array, possibly empty, of objects each
    having a string [Effect] and non-empty string arrays [Action]
    and [Resource]; other members are ignored.  The document with an
    empty [Statement] is accepted, the one with an empty [Action] is
    refused, and any document with one well-formed statement is
    accepted.  The [policies] question answers with this verdict on
    the parsed file. *)
Theorem policy_verdict_spec :
  (forall doc, accepted (policy_verdict doc) = true <-> policy_document doc)
  /\ accepted (policy_verdict empty_statement_document) = true
  /\ accepted (policy_verdict empty_action_document) = false
  /\ (forall st,
        statement_entry st ->
        accepted (policy_verdict
                    (JObj [(js "Version", JStr (js "2012-10-17"));
                           (js "Statement", JArr [st])])) = true)
  /\ (forall w content doc,
        files w !! js "custom-bucket-policy.json" = Some content ->
        JSON_parse content = Some doc ->
        policies_validate JSON_parse w = (Returned (policy_verdict doc), w)).
Proof.
  split; [exact policy_verdict_document |].
  split; [reflexivity |]. split; [reflexivity |]. split.
  - intros st Hst. apply policy_verdict_document.
    exists [(js "Version", JStr (js "2012-10-17"));
            (js "Statement", JArr [st])], [st].
    repeat split; auto.
  - intros w content doc Hfile Hparse.
    unfold policies_validate, bind, readFileSync, ret.
    rewrite Hfile, Hparse. reflexivity.
Qed.

(** ** The provisioner *)

Lemma send_obliging w c op :
  obliging w ->
  exists key,
    send c op w
    = (Returned key, emit (Aws {| client := c; operation := op |}) w).
Proof.
  intros Hob. unfold send.
  destruct (Hob (trace w) {| client := c; operation := op |}) as [key ->].
  eauto.
Qed.

Lemma obliging_emit e w : obliging w -> obliging (emit e w).
Proof. intros H. exact H. Qed.

(** C2. The public-read operation first switches the four
    public-access-block flags off and then sets a bucket policy whose
    single statement allows anybody [s3:GetObject] on
    [arn:aws:s3:::<bucketName>/public/*], which is not the whole
    bucket. *)
Theorem attachPublicBucketPolicy_spec (bucketName : jsstring)
    (region : option jsstring) (w : World) :
  let unblock :=
    Aws {| client := client_of w region;
           operation :=
             S3_putPublicAccessBlock bucketName
               {| BlockPublicAcls := false;
                  IgnorePublicAcls := false;
                  RestrictPublicBuckets := false;
                  BlockPublicPolicy := false |} |} in
  let policy :=
    Aws {| client := client_of w region;
           operation :=
             S3_putBucketPolicy bucketName
               (JSON_stringify (publicReadPolicy bucketName)) |} in
  (exists t,
     trace (snd (attachPublicBucketPolicy bucketName region w))
     = trace w ++ unblock :: t
     /\ (t = [] \/ t = [policy]))
  /\ (obliging w ->
      attachPublicBucketPolicy bucketName region w
      = (Returned tt, emit policy (emit unblock w)))
  /\ (exists statement,
        field (js "Statement") (publicReadPolicy bucketName)
        = Some (JArr [statement])
        /\ field (js "Effect") statement = Some (JStr (js "Allow"))
        /\ field (js "Principal") statement = Some (JStr (js "*"))
        /\ field (js "Action") statement
           = Some (JArr [JStr (js "s3:GetObject")])
        /\ field (js "Resource") statement
           = Some (JArr [JStr (js "arn:aws:s3:::" ++ bucketName
                               ++ js "/public/*")]))
  /\ js "arn:aws:s3:::" ++ bucketName ++ js "/public/*"
     <> js "arn:aws:s3:::" ++ bucketName ++ js "/*".
Proof.
  intros unblock policy. repeat split.
  - unfold attachPublicBucketPolicy, createS3Object, bind, getenv, ret, send.
    cbn [fst snd]. fold (client_of w region).
    destruct (cloud w (trace w) _); cbn [snd emit trace cloud].
    + destruct (cloud w _ _); cbn [snd emit trace];
        exists [policy]; rewrite <- List.app_assoc; auto.
    + exists []. auto.
  - intros Hob. subst unblock policy.
    unfold attachPublicBucketPolicy, createS3Object, bind, getenv, ret.
    fold (client_of w region).
    destruct (send_obliging (client_of w region)
                (S3_putPublicAccessBlock bucketName
                   {| BlockPublicAcls := false;
                      IgnorePublicAcls := false;
                      RestrictPublicBuckets := false;
                      BlockPublicPolicy := false |}) Hob) as [k1 ->].
    cbv beta iota.
    match goal with
    | |- context [send ?c ?op (emit ?e w)] =>
        destruct (send_obliging c op (obliging_emit e Hob)) as [k2 ->]
    end.
    reflexivity.
  - eexists. repeat split; reflexivity.
  - intros H. apply List.app_inv_head in H. apply List.app_inv_head in H.
    discriminate.
Qed.

(** C3. The default-policy helper registers the policy
    [default-<bucketName>-policy], whose single statement grants
    [s3:PutObject] and [s3:GetObject] on
    [arn:aws:s3:::<bucketName>/*], and returns the ARN built from
    the environment's account id; that one [createPolicy] call is the
    only request it sends. *)
Theorem getDefaultUserPolicy_spec (bucketName : jsstring)
    (region : option jsstring) (w : World) :
  let create :=
    {| client := client_of w region;
       operation :=
         IAM_createPolicy
           (js "default-" ++ bucketName ++ js "-policy")
           (JSON_stringify (defaultUserPolicy bucketName)) |} in
  (forall key account,
     cloud w (trace w) create = Fulfilled key ->
     AWS_ACCOUNT_ID (env w) = Some account ->
     getDefaultUserPolicy bucketName region w
     = (Returned (js "arn:aws:iam::" ++ account ++ js ":policy/default-"
                  ++ bucketName ++ js "-policy"),
        emit (ConsoleLog (js "Policy created")) (emit (Aws create) w)))
  /\ (exists t,
        trace (snd (getDefaultUserPolicy bucketName region w))
        = trace w ++ Aws create :: t
        /\ Forall (fun e => is_request e = false) t)
  /\ (exists statement,
        field (js "Statement") (defaultUserPolicy bucketName)
        = Some (JArr [statement])
        /\ field (js "Action") statement
           = Some (JArr [JStr (js "s3:PutObject"); JStr (js "s3:GetObject")])
        /\ field (js "Resource") statement
           = Some (JArr [JStr (js "arn:aws:s3:::" ++ bucketName
                               ++ js "/*")])).
Proof.
  intros create. repeat split.
  - intros key account Hcloud Haccount.
    unfold getDefaultUserPolicy, createPolicy, createIamObject, bind,
      getenv, ret, send, console_log.
    fold (client_of w region). fold create.
    rewrite Hcloud. cbn [env emit]. rewrite Haccount. reflexivity.
  - unfold getDefaultUserPolicy, createPolicy, createIamObject, bind,
      getenv, ret, send, console_log.
    fold (client_of w region). fold create.
    destruct (cloud w (trace w) create); cbn [snd emit trace].
    + exists [ConsoleLog (js "Policy created")].
      rewrite <- List.app_assoc. split; [reflexivity |].
      repeat constructor.
    + exists []. split; [reflexivity | constructor].
  - eexists. repeat split; reflexivity.
Qed.

(** C7. The credential writer puts into [.env.<bucketName>] exactly
    four [KEY=value] lines, in the order access key id, secret,
    bucket name, region; what the file held before, if anything, is
    replaced, no other file is touched, and the console shows the
    same two lines either way. *)
Theorem writeCredentials_spec (id secret bucketName region : jsstring)
    (w : World) :
  let path := js ".env." ++ bucketName in
  let content :=
    join [10%N] [js "AWS_ACCESS_KEY_ID=" ++ id;
                 js "AWS_SECRET_ACCESS_KEY=" ++ secret;
                 js "AWS_BUCKET_NAME=" ++ bucketName;
                 js "AWS_REGION=" ++ region] in
  let run :=
    writeCredentials
      {| AccessKeyId := Some id; SecretAccessKey := Some secret |}
      bucketName (Some region) w in
  fst run = Returned tt
  /\ files (snd run) = <[path := content]> (files w)
  /\ files (snd run) !! path = Some content
  /\ (forall other, other <> path ->
        files (snd run) !! other = files w !! other)
  /\ trace (snd run)
     = trace w ++ [ConsoleLog (js "Creating .env file...");
                   ConsoleLog (js "All done!")].
Proof.
  intros path content run.
  assert (Hfiles : files (snd run) = <[path := content]> (files w)).
  { subst run path content.
    unfold writeCredentials, bind, console_log, writeFileSync.
    cbn [snd emit set_files files tmpl AccessKeyId SecretAccessKey join].
    reflexivity. }
  split; [reflexivity |]. split; [exact Hfiles |].
  split; [| split].
  - rewrite Hfiles. apply lookup_insert_eq.
  - intros other Hother. rewrite Hfiles.
    apply lookup_insert_ne. congruence.
  - subst run. unfold writeCredentials, bind, console_log, writeFileSync.
    cbn [snd emit set_files trace]. rewrite <- List.app_assoc. reflexivity.
Qed.

(** C8. When the operator refuses the default policy, the flow, once
    it has the policy name, writes to [custom-bucket-policy.json] the
    skeleton with version "2012-10-17" and one statement allowing no
    action yet on [arn:aws:s3:::<bucketName>/*], and only then hands
    the file to the operator. *)
Theorem custom_policy_skeleton_spec (w w1 w2 : World)
    (a : UserBucketPrompt) (name : jsstring) :
  userBucketPrompt w = (Returned a, w1) ->
  defaultPolicy a = false ->
  customPolicyNamePrompt w1 = (Returned name, w2) ->
  let skeleton := policySkeleton (bucketName a) in
  main JSON_parse w
  = (customPolicyPrompt JSON_parse ;; provision JSON_parse a (Some name))
      (set_files
         (<[js "custom-bucket-policy.json"
            := JSON_stringify_space skeleton 4]> (files w2))
         w2)
  /\ field (js "Version") skeleton = Some (JStr (js "2012-10-17"))
  /\ exists statement,
       field (js "Statement") skeleton = Some (JArr [statement])
       /\ field (js "Effect") statement = Some (JStr (js "Allow"))
       /\ field (js "Action") statement = Some (JArr [])
       /\ field (js "Resource") statement
          = Some (JArr [JStr (js "arn:aws:s3:::" ++ bucketName a
                              ++ js "/*")]).
Proof.
  intros Hprompt Hcustom Hname skeleton. split; [| split].
  - unfold main, bind at 1. rewrite Hprompt, Hcustom. cbn [negb].
    unfold customPolicyStage, bind, writeFileSync, ret.
    rewrite Hname.
    destruct (customPolicyPrompt JSON_parse _) as [[u | e |] w3];
      reflexivity.
  - reflexivity.
  - eexists. repeat split; reflexivity.
Qed.

(** ** A small program logic for the flow *)

Section Logic.

Variable I : World -> Prop.
Hypothesis I_stable : stable I.
Variable P : Event -> Prop.
Variable E : exn -> Prop.
Variable W : Prop.

Lemma triple_ret {A : Type} (V : A -> Prop) (a : A) :
  V a -> triple I P (ends V E W) (ret a).
Proof.
  intros Ha w HI. simpl. repeat split; auto.
  exists []. rewrite List.app_nil_r. auto.
Qed.

Lemma triple_throw {A : Type} (V : A -> Prop) (e : exn) :
  E e -> triple I P (ends V E W) (throw e).
Proof.
  intros He w HI. simpl. repeat split; auto.
  exists []. rewrite List.app_nil_r. auto.
Qed.

Lemma triple_bind {A B : Type} (VA : A -> Prop) (VB : B -> Prop)
    (m : M A) (k : A -> M B) :
  triple I P (ends VA E W) m ->
  (forall a, VA a -> triple I P (ends VB E W) (k a)) ->
  triple I P (ends VB E W) (bind m k).
Proof.
  intros Hm Hk w HI. unfold bind.
  destruct (Hm w HI) as (HI1 & (t1 & Ht1 & HP1) & Hq1).
  destruct (m w) as [[a | e |] w1]; simpl in *.
  - destruct (Hk a Hq1 w1 HI1) as (HI2 & (t2 & Ht2 & HP2) & Hq2).
    split; [assumption | split; [| assumption]].
    exists (t1 ++ t2). rewrite Ht2, Ht1, List.app_assoc.
    split; [reflexivity | apply Forall_app; auto].
  - eauto.
  - eauto.
Qed.

Lemma triple_seq {A B : Type} (VB : B -> Prop) (m : M A) (k : A -> M B) :
  triple I P (ends (fun _ => True) E W) m ->
  (forall a, triple I P (ends VB E W) (k a)) ->
  triple I P (ends VB E W) (bind m k).
Proof. intros Hm Hk. eapply triple_bind; eauto. Qed.

Lemma triple_emit {A : Type} (V : A -> Prop) (a : A) (e : Event) :
  P e -> V a -> triple I P (ends V E W) (fun w => (Returned a, emit e w)).
Proof.
  intros He Ha w HI. simpl. repeat split; auto.
  - eapply I_stable; [| exact HI]. reflexivity.
  - exists [e]. auto.
Qed.

Lemma triple_console_log (V : unit -> Prop) (text : jsstring) :
  P (ConsoleLog text) -> V tt -> triple I P (ends V E W) (console_log text).
Proof. apply triple_emit. Qed.

Lemma triple_openInEditor (V : unit -> Prop) (path : jsstring) :
  P (OpenInEditor path) -> V tt ->
  triple I P (ends V E W) (openInEditor path).
Proof. apply triple_emit. Qed.

Lemma triple_getenv (V : Env -> Prop) :
  (forall e, V e) -> triple I P (ends V E W) getenv.
Proof.
  intros HV w HI. simpl. repeat split; auto.
  exists []. rewrite List.app_nil_r. auto.
Qed.

Lemma triple_writeFileSync (V : unit -> Prop) (path data : jsstring) :
  V tt -> triple I P (ends V E W) (writeFileSync path data).
Proof.
  intros HV w HI. simpl. repeat split; auto.
  - eapply I_stable; [| exact HI]. reflexivity.
  - exists []. rewrite List.app_nil_r. auto.
Qed.

Lemma triple_readFileSync (V : jsstring -> Prop) (path : jsstring) :
  (forall data, V data) -> E (ENOENT path) ->
  triple I P (ends V E W) (readFileSync path).
Proof.
  intros HV HE w HI. unfold readFileSync.
  destruct (files w !! path); simpl; repeat split; auto;
    exists []; rewrite List.app_nil_r; auto.
Qed.

Lemma triple_send (V : option AccessKey -> Prop) (c : ClientConfig)
    (op : Operation) :
  P (Aws {| client := c; operation := op |}) ->
  (forall key, V key) ->
  (forall code, E (AwsError code)) ->
  triple I P (ends V E W) (send c op).
Proof.
  intros HP HV HE w HI. unfold send.
  destruct (cloud w (trace w) _); simpl; repeat split; auto;
    try (eapply I_stable; [| exact HI]; reflexivity);
    exists [Aws {| client := c; operation := op |}]; auto.
Qed.

Lemma triple_confirm_question (V : bool -> Prop) :
  (forall b, V b) -> W -> triple I P (ends V E W) confirm_question.
Proof.
  intros HV HW w HI. unfold confirm_question.
  destruct (operator w) as [| r rest]; simpl; repeat split; auto;
    try (eapply I_stable; [| exact HI]; reflexivity);
    exists []; rewrite List.app_nil_r; auto.
Qed.

Lemma triple_ask (V : jsstring -> Prop) (validate : jsstring -> M verdict)
    (default : option jsstring) :
  (forall input,
     triple I P (ends (fun v => v = VTrue -> V input) E W)
            (validate input)) ->
  W ->
  forall script w, I w ->
    I (snd (ask validate default script w))
    /\ (exists t,
          trace (snd (ask validate default script w)) = trace w ++ t
          /\ Forall P t)
    /\ ends V E W (fst (ask validate default script w)).
Proof.
  intros Hv HW script.
  induction script as [| r rest IH]; intros w HI; cbn [ask].
  - simpl. repeat split; auto.
    exists []. rewrite List.app_nil_r. auto.
  - set (input := match line r, default with
                  | [], Some d => d
                  | l, _ => l
                  end).
    set (w1 := set_operator rest (set_files (edits r (files w)) w)).
    assert (HI1 : I w1) by (eapply I_stable; [| exact HI]; reflexivity).
    destruct (Hv input w1 HI1) as (HI2 & (t1 & Ht1 & HP1) & Hq).
    destruct (validate input w1) as [[[| msg] | e |] w2]; simpl in *;
      try (repeat split; eauto; fail).
    destruct (IH w2 HI2) as (HI3 & (t2 & Ht2 & HP2) & Hq3).
    split; [assumption | split; [| assumption]].
    exists (t1 ++ t2). rewrite Ht2, Ht1, List.app_assoc.
    split; [reflexivity | apply Forall_app; auto].
Qed.

Lemma triple_input_question (V : jsstring -> Prop)
    (validate : jsstring -> M verdict) (default : option jsstring) :
  (forall input,
     triple I P (ends (fun v => v = VTrue -> V input) E W)
            (validate input)) ->
  W ->
  triple I P (ends V E W) (input_question validate default).
Proof.
  intros Hv HW w HI. unfold input_question.
  apply triple_ask; assumption.
Qed.

Lemma triple_checking (V : jsstring -> Prop)
    (validate : option jsstring -> verdict) (input : jsstring) :
  (validate (Some input) = VTrue -> V input) ->
  triple I P (ends (fun v => v = VTrue -> V input) E W)
         (checking validate input).
Proof. intros H. apply triple_ret. exact H. Qed.

End Logic.

Lemma stable_any : stable (fun _ => True).
Proof. intros w w' _ _. exact Logic.I. Qed.

Lemma stable_obliging : stable obliging.
Proof. intros w w' Hc H history r. rewrite Hc. apply H. Qed.

(** Under an obliging cloud a request cannot throw. *)
Lemma triple_send_obliging (P : Event -> Prop) (E : exn -> Prop) (W : Prop)
    (V : option AccessKey -> Prop) (c : ClientConfig) (op : Operation) :
  P (Aws {| client := c; operation := op |}) ->
  (forall key, V key) ->
  triple obliging P (ends V E W) (send c op).
Proof.
  intros HP HV w Hob.
  destruct (send_obliging c op Hob) as [key ->]. simpl.
  repeat split; auto.
  exists [Aws {| client := c; operation := op |}]. auto.
Qed.

Ltac side :=
  solve [ exact stable_any | exact stable_obliging
        | intros; reflexivity | intros; discriminate
        | intros; exact Logic.I | intros; assumption
        | intros; unfold not_found; eauto ].

Ltac step :=
  cbv beta iota;
  lazymatch goal with
  | |- triple _ _ _ (bind _ _) => eapply triple_seq; [| intros ?]
  | |- triple _ _ _ (ret _) => apply triple_ret
  | |- triple _ _ _ (throw _) => apply triple_throw
  | |- triple _ _ _ (console_log _) => apply triple_console_log
  | |- triple _ _ _ (openInEditor _) => apply triple_openInEditor
  | |- triple _ _ _ getenv => apply triple_getenv
  | |- triple _ _ _ (writeFileSync _ _) => apply triple_writeFileSync
  | |- triple _ _ _ (readFileSync _) => apply triple_readFileSync
  | |- triple obliging _ _ (send _ _) => apply triple_send_obliging
  | |- triple _ _ _ (send _ _) => apply triple_send
  | |- triple _ _ _ confirm_question => apply triple_confirm_question
  | |- triple _ _ _ (input_question _ _) =>
      apply triple_input_question; [| intros ? |]
  | |- triple _ _ _ (if ?b then _ else _) => destruct b
  | |- triple _ _ _ (match ?x with _ => _ end) => destruct x
  end.

Ltac unfold_flow :=
  unfold main, provision, customPolicyStage, customPolicyPrompt,
    policies_validate, writeCredentials, userBucketPrompt,
    customPolicyNamePrompt, bucketName_question, username_question,
    appUrl_question, getDefaultUserPolicy, attachPublicBucketPolicy,
    attachBucketCors, createS3Bucket, attachUserPolicy, createAccessKey,
    createPolicy, createUser, createS3Object, createIamObject, checking.

Lemma main_never_uploads :
  triple (fun _ => True) (fun e => uploads e = false)
         (ends (fun _ => True) (fun _ => True) True) (main JSON_parse).
Proof.
  unfold_flow. repeat (step; try side).
Qed.

(** The steps of [provision] that come before the policy branch. *)
Ltac before_policy_branch :=
  lazymatch goal with
  | |- triple _ _ _ (bind (if false then _ else _) _) => fail
  | |- triple _ _ _ (bind _ _) =>
      eapply triple_seq;
      [ solve [unfold_flow; repeat (step; try side)] | intros _ ]
  end.

(** From the policy branch on, nothing runs when the name is missing. *)
Ltac policy_branch_throws Hname :=
  repeat before_policy_branch;
  eapply (@triple_bind _ _ _ _ _ _ (fun _ => False)); [| intros ? []];
  destruct Hname as [-> | ->]; repeat (step; try side).

Lemma provision_without_name (a : UserBucketPrompt)
    (policyName : option jsstring) :
  defaultPolicy a = false ->
  policyName = None \/ policyName = Some [] ->
  triple (fun _ => True) (fun e => policy_step e = false)
         (ends (fun _ => False)
               (fun e => e = not_found \/ exists code, e = AwsError code)
               False)
         (provision JSON_parse a policyName).
Proof.
  intros Hcustom Hname. unfold provision. rewrite Hcustom.
  policy_branch_throws Hname.
Qed.

Lemma provision_without_name_obliging (a : UserBucketPrompt)
    (policyName : option jsstring) :
  defaultPolicy a = false ->
  policyName = None \/ policyName = Some [] ->
  triple obliging (fun e => policy_step e = false)
         (ends (fun _ => False) (fun e => e = not_found) False)
         (provision JSON_parse a policyName).
Proof.
  intros Hcustom Hname. unfold provision. rewrite Hcustom.
  policy_branch_throws Hname.
Qed.

Lemma policyName_validate_nonempty input :
  policyName_validate (Some input) = VTrue -> input <> [].
Proof. intros H ->. discriminate. Qed.

Lemma provision_with_name (a : UserBucketPrompt)
    (policyName : option jsstring) :
  (defaultPolicy a = false -> exists c s, policyName = Some (c :: s)) ->
  triple (fun _ => True) (fun _ => True)
         (ends (fun _ => True) (fun e => e <> not_found) True)
         (provision JSON_parse a policyName).
Proof.
  intros Hname. unfold provision.
  destruct (defaultPolicy a).
  - unfold_flow. repeat (step; try side).
  - destruct (Hname eq_refl) as (c & s & ->).
    unfold_flow. repeat (step; try side).
Qed.

Lemma main_finds_name :
  triple (fun _ => True) (fun _ => True)
         (ends (fun _ => True) (fun e => e <> not_found) True)
         (main JSON_parse).
Proof.
  unfold main.
  eapply triple_seq; [unfold_flow; repeat (step; try side) | intros a].
  eapply (@triple_bind _ _ _ _ _ _
            (fun policyName =>
               defaultPolicy a = false ->
               exists c s, policyName = Some (c :: s))).
  - destruct (defaultPolicy a); cbn [negb].
    + apply triple_ret. discriminate.
    + unfold customPolicyStage.
      eapply (@triple_bind _ _ _ _ _ _ (fun name => name <> [])).
      * unfold customPolicyNamePrompt.
        apply triple_input_question; [side | intros input | side].
        apply triple_ret. apply policyName_validate_nonempty.
      * intros [| c s] Hne; [congruence |].
        unfold_flow. repeat (step; try side).
  - intros policyName Hname. apply provision_with_name. exact Hname.
Qed.

(** C9. With a custom policy chosen and no policy name in hand, the
    provisioning part never completes and never reaches the
    [createPolicy] and [attachUserPolicy] steps: it throws "Policy
    name not found" unless an earlier request was rejected, and
    throws exactly that when the cloud fulfils every request.  In the
    flow itself the branch that stores the name always holds a
    non-empty one, so that error never comes out of [main]. *)
Theorem policy_name_guard :
  (forall a policyName w,
     defaultPolicy a = false ->
     policyName = None \/ policyName = Some [] ->
     let run := provision JSON_parse a policyName w in
     (fst run = Thrown (Error (js "Policy name not found"))
      \/ exists code, fst run = Thrown (AwsError code))
     /\ (obliging w ->
         fst run = Thrown (Error (js "Policy name not found")))
     /\ exists t,
          trace (snd run) = trace w ++ t
          /\ Forall (fun e => policy_step e = false) t)
  /\ (forall w,
        fst (main JSON_parse w)
        <> Thrown (Error (js "Policy name not found"))).
Proof.
  split.
  - intros a policyName w Hcustom Hname run. subst run.
    destruct (@provision_without_name a policyName Hcustom Hname w Logic.I)
      as (_ & Htrace & Hends).
    split; [| split; [| exact Htrace]].
    + destruct (fst (provision JSON_parse a policyName w)) as [u | e |];
        simpl in Hends; try contradiction.
      destruct Hends as [-> | [code ->]]; eauto.
    + intros Hob.
      destruct (@provision_without_name_obliging a policyName Hcustom Hname
                  w Hob) as (_ & _ & Hends').
      destruct (fst (provision JSON_parse a policyName w)) as [u | e |];
        simpl in Hends'; try contradiction.
      rewrite Hends'. reflexivity.
  - intros w. destruct (@main_finds_name w Logic.I) as (_ & _ & Hends).
    destruct (fst (main JSON_parse w)) as [u | e |]; simpl in Hends;
      [discriminate | | discriminate].
    intros H. injection H as ->. apply Hends. reflexivity.
Qed.

(** C10. Whatever the operator answers and whatever the cloud does,
    the flow never sends a [putObject]: [createBucketFolders], the
    operation that would upload the [public/] and [private/]
    placeholders, is not part of it. *)
Theorem no_object_uploaded :
  (forall w,
     exists t,
       trace (snd (main JSON_parse w)) = trace w ++ t
       /\ Forall (fun e => uploads e = false) t)
  /\ (forall bucketName region w,
        exists t,
          trace (snd (createBucketFolders bucketName region w))
          = trace w
            ++ Aws {| client := client_of w region;
                      operation := S3_putObject bucketName (js "public/") |}
            :: t
          /\ (t = []
              \/ t = [Aws {| client := client_of w region;
                             operation :=
                               S3_putObject bucketName (js "private/") |}])).
Proof.
  split.
  - intros w. destruct (@main_never_uploads w Logic.I) as (_ & Htrace & _).
    exact Htrace.
  - intros bucketName region w.
    unfold createBucketFolders, createS3Object, bind, getenv, ret, send.
    fold (client_of w region).
    destruct (cloud w (trace w) _); cbn [snd emit trace cloud].
    + destruct (cloud w _ _); cbn [snd emit trace];
        (eexists; rewrite <- List.app_assoc; split; [reflexivity | auto]).
    + exists []. auto.
Qed.

End FlowFacts.

(** ** The statements at work on the sample run *)

Lemma sample_obliging script : obliging (sample_world script).
Proof.
  intros history r. unfold sample_world, sample_cloud. simpl.
  destruct (operation r); eexists; reflexivity.
Qed.

Lemma policy_verdict_witness :
  statement_entry sample_statement
  /\ accepted (policy_verdict
                 (JObj [(js "Version", JStr (js "2012-10-17"));
                        (js "Statement", JArr [sample_statement])])) = true.
Proof.
  assert (H : statement_entry sample_statement).
  { unfold statement_entry, string_array, sample_statement. simpl.
    repeat split; eauto;
      eexists; (split; [reflexivity | split; [discriminate |]]);
      repeat constructor; eauto. }
  split; [exact H |].
  exact (proj1 (proj2 (proj2 (proj2 (policy_verdict_spec sample_parse))))
           sample_statement H).
Defined.

Lemma attachPublicBucketPolicy_witness :
  obliging (sample_world [])
  /\ fst (attachPublicBucketPolicy (js "my-app-assets") None (sample_world []))
     = Returned tt.
Proof.
  split; [apply sample_obliging |].
  rewrite (proj1 (proj2 (@attachPublicBucketPolicy_spec
                           (js "my-app-assets") None (sample_world [])))
             (sample_obliging [])).
  reflexivity.
Defined.

Lemma getDefaultUserPolicy_witness :
  fst (getDefaultUserPolicy (js "my-app-assets") None (sample_world []))
  = Returned (js "arn:aws:iam::123456789012:policy/default-my-app-assets-policy").
Proof.
  rewrite (proj1 (@getDefaultUserPolicy_spec
                    (js "my-app-assets") None (sample_world []))
             None (js "123456789012") eq_refl eq_refl).
  reflexivity.
Defined.

Lemma appUrl_validate_witness :
  appUrl_question (sample_world [typed ""; chosen true])
  = (Returned (js "http://localhost:3000"), sample_world [chosen true]).
Proof.
  exact (proj2 (proj2 appUrl_validate_spec)
           (sample_world [typed ""; chosen true]) (typed "") [chosen true]
           eq_refl eq_refl).
Defined.

Lemma writeCredentials_witness :
  js "custom-bucket-policy.json" <> js ".env.my-app-assets"
  /\ files (snd (writeCredentials
                   {| AccessKeyId := Some (js "AKIADEPLOYER");
                      SecretAccessKey := Some (js "deployer-secret") |}
                   (js "my-app-assets") (Some (js "eu-west-1"))
                   (sample_world [])))
     !! js "custom-bucket-policy.json"
     = None.
Proof.
  assert (H : js "custom-bucket-policy.json" <> js ".env.my-app-assets")
    by discriminate.
  split; [exact H |].
  exact (proj1 (proj2 (proj2 (proj2
           (@writeCredentials_spec (js "AKIADEPLOYER") (js "deployer-secret")
              (js "my-app-assets") (js "eu-west-1") (sample_world [])))))
           (js "custom-bucket-policy.json") H).
Defined.

Lemma custom_policy_skeleton_witness :
  main sample_parse
       (sample_world [typed "my-app-assets"; typed "deployer"; typed "";
                      chosen false; typed ""; chosen false;
                      typed "my-policy"])
  = (customPolicyPrompt sample_parse ;;
     provision sample_parse sample_answers (Some (js "my-policy")))
      (set_files
         (<[js "custom-bucket-policy.json"
            := JSON_stringify_space (policySkeleton (js "my-app-assets")) 4]>
            ∅)
         (sample_world [])).
Proof.
  exact (proj1 (@custom_policy_skeleton_spec sample_parse
                  (sample_world [typed "my-app-assets"; typed "deployer";
                                 typed ""; chosen false; typed "";
                                 chosen false; typed "my-policy"])
                  (sample_world [typed "my-policy"])
                  (sample_world [])
                  sample_answers (js "my-policy")
                  eq_refl eq_refl eq_refl)).
Defined.

Lemma policy_name_guard_witness :
  obliging (sample_world [])
  /\ fst (provision sample_parse sample_answers None (sample_world []))
     = Thrown (Error (js "Policy name not found")).
Proof.
  split; [apply sample_obliging |].
  exact (proj1 (proj2 (proj1 (policy_name_guard sample_parse)
                         sample_answers None (sample_world [])
                         eq_refl (or_introl eq_refl)))
           (sample_obliging [])).
Defined.

(** The scenario of the specification, with the default policy: the
    requests sent, in order, and the dotenv file left behind. *)
Example default_policy_run :
  let w := sample_world [typed "my-app-assets"; typed "deployer";
                         typed "https://app.example.com"; chosen false;
                         typed "us-east-1"; chosen true] in
  let run := main sample_parse w in
  fst run = Returned tt
  /\ List.map (fun r => match r with
                        | Aws q => Some (operation q)
                        | _ => None
                        end)
              (List.filter is_request (trace (snd run)))
     = [Some (S3_createBucket (js "my-app-assets"));
        Some (S3_putBucketCors (js "my-app-assets")
                [{| AllowedHeaders := [js "*"];
                    AllowedMethods := [js "GET"; js "PUT"; js "DELETE"];
                    AllowedOrigins := [js "https://app.example.com"];
                    ExposeHeaders := [];
                    MaxAgeSeconds := 3000 |}]);
        Some (IAM_createUser (js "deployer"));
        Some (IAM_createPolicy
                (js "default-my-app-assets-policy")
                (JSON_stringify (defaultUserPolicy (js "my-app-assets"))));
        Some (IAM_attachUserPolicy
                (js "deployer")
                (js "arn:aws:iam::123456789012:policy/default-my-app-assets-policy"));
        Some (IAM_createAccessKey (js "deployer"))]
  /\ files (snd run) !! js ".env.my-app-assets"
     = Some (join [10%N] [js "AWS_ACCESS_KEY_ID=AKIADEPLOYER";
                          js "AWS_SECRET_ACCESS_KEY=deployer-secret";
                          js "AWS_BUCKET_NAME=my-app-assets";
                          js "AWS_REGION=us-east-1"]).
Proof. vm_compute. repeat split. Qed.

(** The same with a custom policy and public read: the skeleton is
    refused until the operator has filled in an action. *)
Example custom_policy_run :
  let w := sample_world [typed "my-app-assets"; typed "deployer"; typed "";
                         chosen true; typed ""; chosen false;
                         typed "my-policy"; typed ""; typed "";
                         saved (JSON_stringify_space sample_policy 4)] in
  let run := main sample_parse w in
  fst run = Returned tt
  /\ operator (snd run) = []
  /\ List.map (fun r => match r with
                        | Aws q => Some (operation q)
                        | _ => None
                        end)
              (List.filter is_request (trace (snd run)))
     = [Some (S3_createBucket (js "my-app-assets"));
        Some (S3_putBucketCors (js "my-app-assets")
                [{| AllowedHeaders := [js "*"];
                    AllowedMethods := [js "GET"; js "PUT"; js "DELETE"];
                    AllowedOrigins := [js "http://localhost:3000"];
                    ExposeHeaders := [];
                    MaxAgeSeconds := 3000 |}]);
        Some (S3_putPublicAccessBlock (js "my-app-assets")
                {| BlockPublicAcls := false;
                   IgnorePublicAcls := false;
                   RestrictPublicBuckets := false;
                   BlockPublicPolicy := false |});
        Some (S3_putBucketPolicy (js "my-app-assets")
                (JSON_stringify (publicReadPolicy (js "my-app-assets"))));
        Some (IAM_createUser (js "deployer"));
        Some (IAM_createPolicy (js "my-policy")
                               (JSON_stringify sample_policy));
        Some (IAM_attachUserPolicy
                (js "deployer")
                (js "arn:aws:iam::123456789012:policy/my-policy"));
        Some (IAM_createAccessKey (js "deployer"))]
  /\ files (snd run) !! js ".env.my-app-assets"
     = Some (join [10%N] [js "AWS_ACCESS_KEY_ID=AKIADEPLOYER";
                          js "AWS_SECRET_ACCESS_KEY=deployer-secret";
                          js "AWS_BUCKET_NAME=my-app-assets";
                          js "AWS_REGION=eu-west-1"]).
Proof. vm_compute. repeat split. Qed.

(** ** Further properties of the flow *)

Section HoareLogic.

Variable P : Event -> Prop.
Variable E : exn -> World -> Prop.
Variable W : World -> Prop.

Lemma hoare_ret {A : Type} (I : World -> Prop) (V : A -> World -> Prop)
    (a : A) :
  (forall w, I w -> V a w) -> hoare I P V E W (ret a).
Proof.
  intros H w HI. simpl. split; [| auto].
  exists []. rewrite List.app_nil_r. auto.
Qed.

Lemma hoare_throw {A : Type} (I : World -> Prop) (V : A -> World -> Prop)
    (e : exn) :
  (forall w, I w -> E e w) -> hoare I P V E W (throw e).
Proof.
  intros H w HI. simpl. split; [| auto].
  exists []. rewrite List.app_nil_r. auto.
Qed.

Lemma hoare_bind {A B : Type} (I : World -> Prop) (VA : A -> World -> Prop)
    (VB : B -> World -> Prop) (m : M A) (k : A -> M B) :
  hoare I P VA E W m ->
  (forall a, hoare (VA a) P VB E W (k a)) ->
  hoare I P VB E W (bind m k).
Proof.
  intros Hm Hk w HI. unfold bind.
  destruct (Hm w HI) as ((t1 & Ht1 & HP1) & Hq1).
  destruct (m w) as [[a | e |] w1]; simpl in *; eauto.
  destruct (Hk a w1 Hq1) as ((t2 & Ht2 & HP2) & Hq2).
  split; [| assumption].
  exists (t1 ++ t2). rewrite Ht2, Ht1, List.app_assoc.
  split; [reflexivity | apply Forall_app; auto].
Qed.

Lemma hoare_pre {A : Type} (I I' : World -> Prop) (V : A -> World -> Prop)
    (m : M A) :
  (forall w, I' w -> I w) -> hoare I P V E W m -> hoare I' P V E W m.
Proof. intros H Hm w HI. apply Hm, H, HI. Qed.

Lemma hoare_post {A : Type} (I : World -> Prop) (V V' : A -> World -> Prop)
    (m : M A) :
  (forall a w, V a w -> V' a w) -> hoare I P V E W m -> hoare I P V' E W m.
Proof.
  intros H Hm w HI. destruct (Hm w HI) as (Ht & Hq). split; [exact Ht |].
  destruct (fst (m w)); auto.
Qed.

Lemma hoare_emit {A : Type} (I : World -> Prop) (V : A -> World -> Prop)
    (a : A) (e : Event) :
  P e -> (forall w, I w -> V a (emit e w)) ->
  hoare I P V E W (fun w => (Returned a, emit e w)).
Proof.
  intros He H w HI. simpl. split; [| auto]. exists [e]. auto.
Qed.

Lemma hoare_console_log (I : World -> Prop) (V : unit -> World -> Prop)
    (text : jsstring) :
  P (ConsoleLog text) ->
  (forall w, I w -> V tt (emit (ConsoleLog text) w)) ->
  hoare I P V E W (console_log text).
Proof. apply hoare_emit. Qed.

Lemma hoare_openInEditor (I : World -> Prop) (V : unit -> World -> Prop)
    (path : jsstring) :
  P (OpenInEditor path) ->
  (forall w, I w -> V tt (emit (OpenInEditor path) w)) ->
  hoare I P V E W (openInEditor path).
Proof. apply hoare_emit. Qed.

Lemma hoare_getenv (I : World -> Prop) (V : Env -> World -> Prop) :
  (forall w, I w -> V (env w) w) -> hoare I P V E W getenv.
Proof.
  intros H w HI. simpl. split; [| auto].
  exists []. rewrite List.app_nil_r. auto.
Qed.

Lemma hoare_writeFileSync (I : World -> Prop) (V : unit -> World -> Prop)
    (path data : jsstring) :
  (forall w, I w -> V tt (set_files (<[path := data]> (files w)) w)) ->
  hoare I P V E W (writeFileSync path data).
Proof.
  intros H w HI. simpl. split; [| auto].
  exists []. rewrite List.app_nil_r. auto.
Qed.

Lemma hoare_readFileSync (I : World -> Prop) (V : jsstring -> World -> Prop)
    (path : jsstring) :
  (forall w data, I w -> files w !! path = Some data -> V data w) ->
  (forall w, I w -> files w !! path = None -> E (ENOENT path) w) ->
  hoare I P V E W (readFileSync path).
Proof.
  intros HV HE w HI. unfold readFileSync.
  destruct (files w !! path) eqn:Hf; simpl;
    (split; [exists []; rewrite List.app_nil_r; auto | auto]).
Qed.

Lemma hoare_send (I : World -> Prop) (V : option AccessKey -> World -> Prop)
    (c : ClientConfig) (op : Operation) :
  let r := {| client := c; operation := op |} in
  P (Aws r) ->
  (forall w key, I w -> cloud w (trace w) r = Fulfilled key ->
                 V key (emit (Aws r) w)) ->
  (forall w code, I w -> cloud w (trace w) r = Rejected code ->
                  E (AwsError code) (emit (Aws r) w)) ->
  hoare I P V E W (send c op).
Proof.
  intros r HP HV HE w HI. unfold send. fold r.
  destruct (cloud w (trace w) r) eqn:Hc; simpl;
    (split; [exists [Aws r]; auto | eauto]).
Qed.

Lemma hoare_confirm_question (I : World -> Prop) (V : bool -> World -> Prop) :
  (forall w r rest, I w -> operator w = r :: rest ->
     V (yes r) (set_operator rest (set_files (edits r (files w)) w))) ->
  (forall w, I w -> operator w = [] -> W w) ->
  hoare I P V E W confirm_question.
Proof.
  intros HV HW w HI. unfold confirm_question.
  destruct (operator w) as [| r rest] eqn:Ho; simpl;
    (split; [exists []; rewrite List.app_nil_r; auto | eauto]).
Qed.

(** The loop of an input question, with [I] as its invariant. *)
Lemma hoare_ask (I : World -> Prop) (V : jsstring -> World -> Prop)
    (validate : jsstring -> M verdict) (default : option jsstring) :
  (forall w r rest,
     I w -> I (set_operator rest (set_files (edits r (files w)) w))) ->
  (forall input,
     hoare I P (fun v w => match v with
                           | VTrue => V input w
                           | VMsg _ => I w
                           end) E W (validate input)) ->
  (forall w, I w -> W w) ->
  forall script w, I w ->
    (exists t,
       trace (snd (ask validate default script w)) = trace w ++ t
       /\ Forall P t)
    /\ match fst (ask validate default script w) with
       | Returned a => V a (snd (ask validate default script w))
       | Thrown e => E e (snd (ask validate default script w))
       | Waiting => W (snd (ask validate default script w))
       end.
Proof.
  intros Hreply Hv HW script.
  induction script as [| r rest IH]; intros w HI; cbn [ask].
  - simpl. split; [| auto]. exists []. rewrite List.app_nil_r. auto.
  - set (input := match line r, default with
                  | [], Some d => d
                  | l, _ => l
                  end).
    set (w1 := set_operator rest (set_files (edits r (files w)) w)).
    assert (HI1 : I w1) by (apply Hreply; exact HI).
    destruct (Hv input w1 HI1) as ((t1 & Ht1 & HP1) & Hq).
    destruct (validate input w1) as [[[| msg] | e |] w2]; simpl in *;
      try (split; eauto; fail).
    destruct (IH w2 Hq) as ((t2 & Ht2 & HP2) & Hq2).
    split; [| assumption].
    exists (t1 ++ t2). rewrite Ht2, Ht1, List.app_assoc.
    split; [reflexivity | apply Forall_app; auto].
Qed.

Lemma hoare_input_question (I : World -> Prop) (V : jsstring -> World -> Prop)
    (validate : jsstring -> M verdict) (default : option jsstring) :
  (forall w r rest,
     I w -> I (set_operator rest (set_files (edits r (files w)) w))) ->
  (forall input,
     hoare I P (fun v w => match v with
                           | VTrue => V input w
                           | VMsg _ => I w
                           end) E W (validate input)) ->
  (forall w, I w -> W w) ->
  hoare I P V E W (input_question validate default).
Proof.
  intros Hreply Hv HW w HI. unfold input_question.
  apply (@hoare_ask I V validate default Hreply Hv HW (operator w) w HI).
Qed.

End HoareLogic.

Lemma hoare_weaken {A : Type} (I : World -> Prop) (P P' : Event -> Prop)
    (V V' : A -> World -> Prop) (E E' : exn -> World -> Prop)
    (W W' : World -> Prop) (m : M A) :
  (forall e, P e -> P' e) ->
  (forall a w, V a w -> V' a w) ->
  (forall e w, E e w -> E' e w) ->
  (forall w, W w -> W' w) ->
  hoare I P V E W m -> hoare I P' V' E' W' m.
Proof.
  intros HP HV HE HW Hm w HI.
  destruct (Hm w HI) as ((t & Ht & HPt) & Hq). split.
  - exists t. split; [exact Ht |].
    eapply List.Forall_impl; [exact HP | exact HPt].
  - destruct (fst (m w)); auto.
Qed.

(** A fact that does not depend on the world moves to the context. *)
Lemma hoare_pure {A : Type} (fact : Prop) (I : World -> Prop)
    (P : Event -> Prop) (V : A -> World -> Prop) (E : exn -> World -> Prop)
    (W : World -> Prop) (m : M A) :
  (fact -> hoare I P V E W m) ->
  hoare (fun w => fact /\ I w) P V E W m.
Proof. intros H w [Hfact HI]. apply H; assumption. Qed.

Lemma hoare_fact {A : Type} (fact : Prop) (P : Event -> Prop)
    (V : A -> World -> Prop) (E : exn -> World -> Prop) (W : World -> Prop)
    (m : M A) :
  (fact -> hoare (fun _ => True) P V E W m) ->
  hoare (fun _ => fact) P V E W m.
Proof. intros H w Hfact. apply H; [assumption | exact Logic.I]. Qed.

Section MoreFlowFacts.

Variable JSON_parse : jsstring -> option json.

Ltac hside :=
  solve [ exact Logic.I | intros; exact Logic.I | intros; assumption
        | intros; discriminate
        | intros; cbv beta iota delta [policy_checked aws_or_missing]; eauto
        | intros;
          match goal with
          | |- match ?v with _ => _ end => destruct v
          end; solve [assumption | exact Logic.I] ].

(** One step of a proof that keeps the invariant [Inv]. *)
Ltac hstep Inv :=
  cbv beta iota;
  lazymatch goal with
  | |- hoare _ _ _ _ _ (bind _ _) =>
      eapply (@hoare_bind _ _ _ _ _ _ (fun _ => Inv)); [| intros ?]
  | |- hoare _ _ _ _ _ (ret _) => apply hoare_ret
  | |- hoare _ _ _ _ _ (throw _) => apply hoare_throw
  | |- hoare _ _ _ _ _ (console_log _) => apply hoare_console_log
  | |- hoare _ _ _ _ _ (openInEditor _) => apply hoare_openInEditor
  | |- hoare _ _ _ _ _ getenv => apply hoare_getenv
  | |- hoare _ _ _ _ _ (writeFileSync _ _) => apply hoare_writeFileSync
  | |- hoare _ _ _ _ _ (readFileSync _) => apply hoare_readFileSync
  | |- hoare _ _ _ _ _ (send _ _) => apply hoare_send
  | |- hoare _ _ _ _ _ confirm_question => apply hoare_confirm_question
  | |- hoare _ _ _ _ _ (input_question _ _) =>
      apply hoare_input_question; [| intros ? |]
  | |- hoare _ _ _ _ _ (if ?b then _ else _) => destruct b
  | |- hoare _ _ _ _ _ (match ?x with _ => _ end) => destruct x
  end.

Ltac unfold_all :=
  unfold main, provision, customPolicyStage, customPolicyPrompt,
    policies_validate, writeCredentials, userBucketPrompt,
    customPolicyNamePrompt, bucketName_question, username_question,
    appUrl_question, getDefaultUserPolicy, attachPublicBucketPolicy,
    attachBucketCors, createS3Bucket, attachUserPolicy, createAccessKey,
    createPolicy, createUser, createS3Object, createIamObject, checking.

(** The editor prompts: only editor launches are recorded, the only
    exception is the missing file, and on return the file is ready. *)
Lemma customPolicyPrompt_hoare :
  hoare (fun _ => True)
        (fun e => e = OpenInEditor policy_path)
        (fun _ w => policy_file_ready JSON_parse w)
        (fun e _ => e = ENOENT policy_path)
        (fun _ => True)
        (customPolicyPrompt JSON_parse).
Proof.
  unfold customPolicyPrompt.
  eapply (@hoare_bind _ _ _ _ _ _ (fun _ _ => True)).
  { apply hoare_input_question; [hside | intros input | hside].
    eapply (@hoare_bind _ _ _ _ _ _ (fun _ _ => True)).
    - apply hoare_openInEditor; [reflexivity | hside].
    - intros _. apply hoare_ret. hside. }
  intros _.
  eapply (@hoare_bind _ _ _ _ _ _
            (fun _ w => policy_file_ready JSON_parse w)).
  { apply hoare_input_question; [hside | intros input | hside].
    unfold policies_validate.
    eapply (@hoare_bind _ _ _ _ _ _
              (fun data w => files w !! policy_path = Some data)).
    - apply hoare_readFileSync; [auto | reflexivity].
    - intros data. apply hoare_ret. intros w Hfile.
      destruct (JSON_parse data) as [doc |] eqn:Hparse; [| exact Logic.I].
      destruct (policy_verdict doc) eqn:Hverdict; [| exact Logic.I].
      exists data, doc. repeat split; try assumption.
      apply policy_verdict_document. rewrite Hverdict. reflexivity. }
  intros _. apply hoare_ret. auto.
Qed.

Lemma defaultUserPolicy_document bucketName :
  policy_document (defaultUserPolicy bucketName).
Proof. apply policy_verdict_document. reflexivity. Qed.

Ltac hsteps_to_read Inv :=
  repeat (lazymatch goal with
          | |- hoare _ _ _ _ _ (bind (readFileSync _) _) => fail
          | _ => hstep Inv; try hside
          end).

Lemma provision_policy_flow (a : UserBucketPrompt)
    (policyName : option jsstring) :
  hoare (fun w => defaultPolicy a = false ->
                  (exists c s, policyName = Some (c :: s))
                  /\ policy_file_ready JSON_parse w)
        policy_checked (fun _ _ => True) (fun e _ => aws_or_missing e)
        (fun _ => True)
        (provision JSON_parse a policyName).
Proof.
  unfold aws_or_missing.
  destruct (defaultPolicy a) eqn:Hd.
  - apply hoare_pre with (I := fun _ => True); [auto |].
    unfold provision. rewrite Hd. unfold_all.
    repeat (hstep (fun _ : World => True); try hside).
    cbv beta iota delta [policy_checked].
    eexists. split; [reflexivity | apply defaultUserPolicy_document].
  - apply hoare_pre
      with (I := fun w => (exists c s, policyName = Some (c :: s))
                          /\ policy_file_ready JSON_parse w); [auto |].
    apply hoare_pure. intros (c & s & ->).
    unfold provision. rewrite Hd. unfold_all.
    hsteps_to_read (policy_file_ready JSON_parse).
    eapply (@hoare_bind _ _ _ _ _ _
              (fun data w =>
                 (exists doc, JSON_parse data = Some doc
                              /\ policy_document doc)
                 /\ policy_file_ready JSON_parse w)).
    + apply hoare_readFileSync; [| eauto].
      intros w data Hready Hfile. split; [| exact Hready].
      destruct Hready as (text & doc & Htext & Hparse & Hdoc).
      unfold policy_path in Htext. rewrite Htext in Hfile.
      injection Hfile as <-. eauto.
    + intros data. apply hoare_pure. intros (doc & Hparse & Hdoc).
      rewrite Hparse.
      repeat (hstep (policy_file_ready JSON_parse); try hside).
    + intros w (text & doc & Htext & Hready).
      exists text, doc. split; [| exact Hready].
      cbn [files set_files]. rewrite lookup_insert_ne; [exact Htext |].
      discriminate.
Qed.

(** A validated question: silent, never throwing, and answered only by
    a line its validator accepts. *)
Lemma checked_question_hoare (validate : option jsstring -> verdict)
    (default : option jsstring) :
  hoare (fun _ => True) (fun _ => False)
        (fun input _ => accepted (validate (Some input)) = true)
        (fun _ _ => False) (fun _ => True)
        (input_question (checking validate) default).
Proof.
  apply hoare_input_question; [hside | intros input | hside].
  unfold checking. apply hoare_ret. intros w _.
  destruct (validate (Some input)); [reflexivity | exact Logic.I].
Qed.

Lemma userBucketPrompt_hoare :
  hoare (fun _ => True) (fun _ => False)
        (fun a _ => checked_answers a)
        (fun _ _ => False) (fun _ => True)
        userBucketPrompt.
Proof.
  unfold userBucketPrompt, bucketName_question, username_question,
    appUrl_question.
  eapply (@hoare_bind _ _ _ _ _ _ (fun _ _ => True));
    [apply hoare_getenv; hside | intros e].
  eapply hoare_bind; [apply checked_question_hoare | intros b].
  cbv beta. apply hoare_fact. intros Hb.
  eapply hoare_bind; [apply checked_question_hoare | intros u].
  cbv beta. apply hoare_fact. intros Hu.
  eapply hoare_bind; [apply checked_question_hoare | intros url].
  cbv beta. apply hoare_fact. intros Hurl.
  eapply (@hoare_bind _ _ _ _ _ _ (fun _ _ => True));
    [apply hoare_confirm_question; hside | intros public].
  eapply (@hoare_bind _ _ _ _ _ _ (fun _ _ => True)).
  { apply hoare_input_question; [hside | intros input | hside].
    apply hoare_ret. hside. }
  intros r.
  eapply (@hoare_bind _ _ _ _ _ _ (fun _ _ => True));
    [apply hoare_confirm_question; hside | intros default].
  apply hoare_ret. intros w _. unfold checked_answers. simpl. eauto.
Qed.

Lemma main_policy_flow :
  hoare (fun _ => True) policy_checked (fun _ _ => True)
        (fun e _ => aws_or_missing e) (fun _ => True)
        (main JSON_parse).
Proof.
  unfold main.
  eapply (@hoare_bind _ _ _ _ _ _ (fun _ _ => True)).
  { eapply hoare_weaken; [| | | | apply userBucketPrompt_hoare];
      simpl; intros; try contradiction; auto. }
  intros a.
  eapply (@hoare_bind _ _ _ _ _ _
            (fun policyName w =>
               defaultPolicy a = false ->
               (exists c s, policyName = Some (c :: s))
               /\ policy_file_ready JSON_parse w)).
  - destruct (defaultPolicy a); cbn [negb].
    + apply hoare_ret. intros; discriminate.
    + unfold customPolicyStage, customPolicyNamePrompt.
      eapply (@hoare_bind _ _ _ _ _ _
                (fun name _ => checked_policy_name name)).
      { eapply hoare_weaken; [| | | | apply checked_question_hoare];
          cbv beta; intros; try contradiction; auto. }
      intros name. cbv beta. apply hoare_fact. intros Hname.
      eapply (@hoare_bind _ _ _ _ _ _ (fun _ _ => True));
        [apply hoare_writeFileSync; hside |].
      intros _.
      eapply (@hoare_bind _ _ _ _ _ _
                (fun _ w => policy_file_ready JSON_parse w)).
      { eapply hoare_weaken; [| | | | apply customPolicyPrompt_hoare];
          simpl; intros; subst; unfold aws_or_missing; auto.
        exact Logic.I. }
      intros _. apply hoare_ret. intros w Hready _. split; [| exact Hready].
      destruct name as [| c s]; [discriminate | eauto].
  - intros policyName. apply provision_policy_flow.
Qed.

Lemma silent_trace (w w' : World) :
  (exists t, trace w' = trace w ++ t /\ Forall (fun _ => False) t) ->
  trace w' = trace w.
Proof.
  intros (t & Ht & Hnone). destruct Hnone as [| e t []].
  rewrite Ht. apply List.app_nil_r.
Qed.

(** X5. The two validated prompts send nothing, log nothing and never
    throw; what they return went through the validators. *)
Theorem prompts_answers_checked :
  (forall w,
     trace (snd (userBucketPrompt w)) = trace w
     /\ (forall e, fst (userBucketPrompt w) <> Thrown e)
     /\ (forall a, fst (userBucketPrompt w) = Returned a ->
                   checked_answers a))
  /\ (forall w,
        trace (snd (customPolicyNamePrompt w)) = trace w
        /\ (forall e, fst (customPolicyNamePrompt w) <> Thrown e)
        /\ (forall name, fst (customPolicyNamePrompt w) = Returned name ->
                         checked_policy_name name)).
Proof.
  split; intros w.
  - destruct (@userBucketPrompt_hoare w Logic.I) as (Ht & Hq).
    split; [apply silent_trace; exact Ht |].
    destruct (fst (userBucketPrompt w)) as [a | e |]; split;
      try discriminate; try contradiction.
    intros a' Ha. injection Ha as <-. exact Hq.
  - unfold customPolicyNamePrompt.
    destruct (@checked_question_hoare policyName_validate None w Logic.I)
      as (Ht & Hq).
    split; [apply silent_trace; exact Ht |].
    destruct (fst (input_question (checking policyName_validate) None w))
      as [a | e |]; split; try discriminate; try contradiction.
    intros a' Ha. injection Ha as <-. exact Hq.
Qed.

(** X6. The editor prompts record nothing but editor launches, can only
    fail on a missing policy file, and return only once the file holds
    a text that parses into a document the schema lets through. *)
Theorem customPolicyPrompt_ready (w : World) :
  let run := customPolicyPrompt JSON_parse w in
  (exists t,
     trace (snd run) = trace w ++ t
     /\ Forall (fun e => e = OpenInEditor policy_path) t)
  /\ (forall e, fst run = Thrown e -> e = ENOENT policy_path)
  /\ (fst run = Returned tt -> policy_file_ready JSON_parse (snd run)).
Proof.
  intros run. subst run.
  destruct (@customPolicyPrompt_hoare w Logic.I) as (Ht & Hq).
  split; [exact Ht |].
  destruct (fst (customPolicyPrompt JSON_parse w)) as [u | e |]; split;
    try discriminate; auto.
  intros e' He. injection He as <-. exact Hq.
Qed.

(** X7. The only exceptions that come out of the flow are a rejected
    request and the missing policy file: no [SyntaxError] from the
    second [JSON.parse], no "Policy name not found". *)
Theorem main_throws_only (w : World) (e : exn) :
  fst (main JSON_parse w) = Thrown e ->
  (exists code, e = AwsError code) \/ e = ENOENT policy_path.
Proof.
  intros He. destruct (@main_policy_flow w Logic.I) as (_ & Hq).
  rewrite He in Hq. exact Hq.
Qed.


Ltac nside :=
  intros; cbv beta iota delta [names_checked];
  solve [ exact Logic.I | assumption | left; eauto
        | right; eexists; split; [eassumption | reflexivity]
        | split; [assumption | repeat constructor; assumption] ].

Lemma provision_names (a : UserBucketPrompt) (policyName : option jsstring) :
  checked_answers a ->
  (forall name, policyName = Some name -> checked_policy_name name) ->
  hoare (fun _ => True) names_checked (fun _ _ => True) (fun _ _ => True)
        (fun _ => True) (provision JSON_parse a policyName).
Proof.
  intros (Hb & Hu & Hurl & _) Hname.
  unfold_all. repeat (hstep (fun _ : World => True); try hside; try nside).
Qed.

Lemma main_names :
  hoare (fun _ => True) names_checked (fun _ _ => True) (fun _ _ => True)
        (fun _ => True) (main JSON_parse).
Proof.
  unfold main.
  eapply (@hoare_bind _ _ _ _ _ _ (fun a _ => checked_answers a)).
  { eapply hoare_weaken; [| | | | apply userBucketPrompt_hoare];
      cbv beta; intros; try contradiction; auto. }
  intros a. cbv beta. apply hoare_fact. intros Ha.
  eapply (@hoare_bind _ _ _ _ _ _
            (fun policyName _ =>
               forall name, policyName = Some name ->
                            checked_policy_name name)).
  - destruct (defaultPolicy a); cbn [negb].
    + apply hoare_ret. intros; discriminate.
    + unfold customPolicyStage, customPolicyNamePrompt.
      eapply (@hoare_bind _ _ _ _ _ _
                (fun name _ => checked_policy_name name)).
      { eapply hoare_weaken; [| | | | apply checked_question_hoare];
          cbv beta; intros; try contradiction; auto. }
      intros name. cbv beta. apply hoare_fact. intros Hname.
      eapply (@hoare_bind _ _ _ _ _ _ (fun _ _ => True));
        [apply hoare_writeFileSync; hside |].
      intros _.
      eapply (@hoare_bind _ _ _ _ _ _ (fun _ _ => True)).
      { eapply hoare_weaken; [| | | | apply customPolicyPrompt_hoare];
          cbv beta; intros; subst; auto; exact Logic.I. }
      intros _. apply hoare_ret. intros w _ name' Heq.
      injection Heq as <-. exact Hname.
  - intros policyName. cbv beta. apply hoare_fact. intros Hname.
    apply provision_names; assumption.
Qed.

(** X9. Every request of the flow names a bucket, a user, CORS origins and
    a policy that went through the validators (the default policy
    being named after the validated bucket). *)
Theorem main_names_checked (w : World) :
  exists t,
    trace (snd (main JSON_parse w)) = trace w ++ t
    /\ Forall names_checked t.
Proof.
  destruct (@main_names w Logic.I) as (Ht & _). exact Ht.
Qed.


Ltac unfold_provisioner_in H :=
  unfold provision, getDefaultUserPolicy, attachPublicBucketPolicy,
    attachBucketCors, createS3Bucket, attachUserPolicy, createAccessKey,
    createPolicy, createUser, createS3Object, createIamObject in H.



(** ** Rejected requests *)

Lemma fail_fast_silent {A : Type} (m : M A) :
  (forall w,
     cloud (snd (m w)) = cloud w
     /\ (exists t, trace (snd (m w)) = trace w ++ t
                   /\ Forall (fun e => is_request e = false) t)
     /\ forall code, fst (m w) <> Thrown (AwsError code)) ->
  fail_fast m.
Proof.
  intros H w. destruct (H w) as (Hc & (t & Ht & Hquiet) & Hno).
  split; [exact Hc |]. exists t. split; [exact Ht |]. split.
  - intros t1 q t2 code Hsplit _. subst t.
    apply Forall_app in Hquiet as [_ Hq]. inversion Hq; discriminate.
  - intros code Hcode. destruct (Hno code Hcode).
Qed.

Ltac silent_step :=
  apply fail_fast_silent; intros w; simpl;
  repeat split; try discriminate;
  solve [ exists []; rewrite List.app_nil_r; auto
        | eexists; split; [reflexivity | repeat constructor] ].

Lemma fail_fast_ret {A : Type} (a : A) : fail_fast (ret a).
Proof. silent_step. Qed.

Lemma fail_fast_error {A : Type} (e : exn) :
  (forall code, e <> AwsError code) -> fail_fast (@throw A e).
Proof.
  intros He. apply fail_fast_silent. intros w. simpl. repeat split.
  - exists []. rewrite List.app_nil_r. auto.
  - intros code Hc. injection Hc as ->. eapply He. reflexivity.
Qed.

Lemma fail_fast_console_log text : fail_fast (console_log text).
Proof. silent_step. Qed.

Lemma fail_fast_openInEditor path : fail_fast (openInEditor path).
Proof. silent_step. Qed.

Lemma fail_fast_getenv : fail_fast getenv.
Proof. silent_step. Qed.

Lemma fail_fast_writeFileSync path data : fail_fast (writeFileSync path data).
Proof. silent_step. Qed.

Lemma fail_fast_readFileSync path : fail_fast (readFileSync path).
Proof.
  apply fail_fast_silent. intros w. unfold readFileSync.
  destruct (files w !! path); simpl; repeat split; try discriminate;
    exists []; rewrite List.app_nil_r; auto.
Qed.

Lemma fail_fast_confirm_question : fail_fast confirm_question.
Proof.
  apply fail_fast_silent. intros w. unfold confirm_question.
  destruct (operator w); simpl; repeat split; try discriminate;
    exists []; rewrite List.app_nil_r; auto.
Qed.

Lemma fail_fast_send c op : fail_fast (send c op).
Proof.
  intros w. unfold send.
  set (r := {| client := c; operation := op |}).
  assert (Hsplit : forall t1 q t2,
             [Aws r] = t1 ++ Aws q :: t2 -> t1 = [] /\ q = r /\ t2 = []).
  { intros [| x t1] q t2 H; simpl in H.
    - injection H as -> <-. auto.
    - injection H as _ H. destruct t1; discriminate. }
  destruct (cloud w (trace w) r) eqn:Hc; simpl;
    (split; [reflexivity |]); exists [Aws r];
    (split; [reflexivity |]); split.
  - intros t1 q t2 code' H Hr.
    apply Hsplit in H as (-> & -> & ->).
    rewrite List.app_nil_r in Hr. congruence.
  - discriminate.
  - intros t1 q t2 code' H Hr.
    apply Hsplit in H as (-> & -> & ->).
    rewrite List.app_nil_r in Hr. split; [reflexivity | congruence].
  - intros code' H. injection H as <-.
    exists [], r. rewrite List.app_nil_r. auto.
Qed.

Lemma fail_fast_bind {A B : Type} (m : M A) (k : A -> M B) :
  fail_fast m -> (forall a, fail_fast (k a)) -> fail_fast (bind m k).
Proof.
  intros Hm Hk w. unfold bind.
  destruct (Hm w) as (Hc1 & t1 & Ht1 & Hrej1 & Hthrow1).
  destruct (m w) as [[a | e |] w1]; simpl in *.
  2: { split; [exact Hc1 |]. exists t1. split; [exact Ht1 |]. split.
       - intros u q v code Hsplit Hr.
         destruct (Hrej1 u q v code Hsplit Hr) as [-> Hcode].
         injection Hcode as ->. auto.
       - intros code Hcode. injection Hcode as ->.
         apply Hthrow1. reflexivity. }
  2: { split; [exact Hc1 |]. exists t1. split; [exact Ht1 |]. split.
       - intros u q v code Hsplit Hr.
         destruct (Hrej1 u q v code Hsplit Hr) as [_ Hcode]. discriminate.
       - discriminate. }
  destruct (Hk a w1) as (Hc2 & t2 & Ht2 & Hrej2 & Hthrow2).
  rewrite Hc1, Ht1 in *.
  split; [exact Hc2 |]. exists (t1 ++ t2).
  split; [rewrite Ht2; symmetry; apply List.app_assoc |]. split.
  - intros u q v code Hsplit Hr.
    apply List.app_eq_app in Hsplit as [l [[-> Hl] | [-> ->]]].
    + destruct l as [| x l]; simpl in Hl.
      * subst t2. apply (Hrej2 [] q v code); [reflexivity |].
        rewrite !List.app_nil_r. exact Hr.
      * injection Hl as <- ->.
        destruct (Hrej1 u q l code eq_refl Hr) as [_ Habs]. discriminate.
    + apply (Hrej2 l q v code); [reflexivity |].
      rewrite <- List.app_assoc. exact Hr.
  - intros code Hcode.
    destruct (Hthrow2 code Hcode) as (l & q & -> & Hr).
    exists (t1 ++ l), q. split; [apply List.app_assoc |].
    rewrite List.app_assoc. exact Hr.
Qed.

Lemma fail_fast_ask (validate : jsstring -> M verdict)
    (default : option jsstring) :
  (forall input, fail_fast (validate input)) ->
  forall script, fail_fast (ask validate default script).
Proof.
  intros Hv script. induction script as [| r rest IH].
  - intros w. simpl. split; [reflexivity |]. exists [].
    rewrite List.app_nil_r. repeat split; try discriminate.
    all: intros; destruct t1; discriminate.
  - intros w. cbn [ask].
    set (input := match line r, default with
                  | [], Some d => d
                  | l, _ => l
                  end).
    set (w1 := set_operator rest (set_files (edits r (files w)) w)).
    pose proof (@fail_fast_bind verdict jsstring (validate input)
                  (fun v => match v with
                            | VTrue => ret input
                            | VMsg _ => ask validate default rest
                            end)
                  (Hv input)) as Hb.
    assert (Hk : forall v : verdict,
               fail_fast match v with
                         | VTrue => ret input
                         | VMsg _ => ask validate default rest
                         end).
    { intros [| msg]; [apply fail_fast_ret | exact IH]. }
    specialize (Hb Hk w1). unfold bind, ret in Hb.
    change (trace w1) with (trace w) in Hb.
    change (cloud w1) with (cloud w) in Hb.
    destruct (validate input w1) as [[[| msg] | e |] w2]; exact Hb.
Qed.

Lemma fail_fast_input_question (validate : jsstring -> M verdict)
    (default : option jsstring) :
  (forall input, fail_fast (validate input)) ->
  fail_fast (input_question validate default).
Proof.
  intros Hv w. unfold input_question.
  apply (@fail_fast_ask validate default Hv (operator w) w).
Qed.

Ltac ff_step :=
  cbv beta iota;
  lazymatch goal with
  | |- fail_fast (bind _ _) => apply fail_fast_bind; [| intros ?]
  | |- fail_fast (ret _) => apply fail_fast_ret
  | |- fail_fast (throw _) => apply fail_fast_error; discriminate
  | |- fail_fast (console_log _) => apply fail_fast_console_log
  | |- fail_fast (openInEditor _) => apply fail_fast_openInEditor
  | |- fail_fast getenv => apply fail_fast_getenv
  | |- fail_fast (writeFileSync _ _) => apply fail_fast_writeFileSync
  | |- fail_fast (readFileSync _) => apply fail_fast_readFileSync
  | |- fail_fast (send _ _) => apply fail_fast_send
  | |- fail_fast confirm_question => apply fail_fast_confirm_question
  | |- fail_fast (input_question _ _) =>
      apply fail_fast_input_question; intros ?
  | |- fail_fast (if ?b then _ else _) => destruct b
  | |- fail_fast (match ?x with _ => _ end) => destruct x
  end.

Lemma main_stops_at_rejection : fail_fast (main JSON_parse).
Proof. unfold_all. repeat ff_step. Qed.

(** X1. A rejected request ends the flow on the spot: it is the last thing
    the flow does and its code is what the flow throws; conversely an
    [AwsError] out of the flow is the code of a request that was just
    rejected. *)
Theorem main_fail_fast (w : World) :
  let run := main JSON_parse w in
  (forall t1 q t2 code,
     trace (snd run) = trace w ++ t1 ++ Aws q :: t2 ->
     cloud w (trace w ++ t1) q = Rejected code ->
     t2 = [] /\ fst run = Thrown (AwsError code))
  /\ (forall code,
        fst run = Thrown (AwsError code) ->
        exists t1 q,
          trace (snd run) = trace w ++ t1 ++ [Aws q]
          /\ cloud w (trace w ++ t1) q = Rejected code).
Proof.
  intros run. subst run.
  destruct (main_stops_at_rejection w) as (_ & t & Ht & Hrej & Hthrow).
  split.
  - intros t1 q t2 code Hsplit Hr. rewrite Ht in Hsplit.
    apply List.app_inv_head in Hsplit. eauto.
  - intros code Hcode. destruct (Hthrow code Hcode) as (t1 & q & -> & Hr).
    exists t1, q. split; [exact Ht | exact Hr].
Qed.

(** ** Runs against an obliging cloud *)

Lemma requests_app (t1 t2 : list Event) :
  requests (t1 ++ t2) = requests t1 ++ requests t2.
Proof. unfold requests. apply List.flat_map_app. Qed.

(** Runs the next request of [Hrun] against the obliging cloud. *)
Ltac run_send Hob Hrun :=
  cbv beta iota
      delta [bind ret throw getenv console_log writeFileSync
             emit set_files env cloud operator files trace] in Hrun;
  lazymatch type of Hrun with
  | context [send ?c ?op ?w0] =>
      let Hs := fresh "Hs" in
      destruct (@send_obliging w0 c op Hob) as [? Hs];
      rewrite Hs in Hrun; clear Hs
  end.

Ltac finish_run Hrun :=
  cbv beta iota
      delta [bind ret throw getenv console_log writeFileSync
             emit set_files env cloud operator files trace] in Hrun;
  let H1 := fresh "H" in
  let H2 := fresh "H" in
  pose proof (f_equal fst Hrun) as H1;
  pose proof (f_equal snd Hrun) as H2;
  cbn [fst snd] in H1, H2; clear Hrun;
  subst;
  cbn [fst snd trace files];
  rewrite ?requests_app; cbn [requests flat_map List.app];
  rewrite ?List.app_nil_r, <- ?List.app_assoc.

(** X2. With the default policy and a cloud that fulfils every request,
    the provisioning part returns after sending, with one and the same
    client, the bucket operations, then [createUser], [createPolicy]
    for the default policy, [attachUserPolicy] with its ARN and
    [createAccessKey]. *)
Theorem default_policy_requests (a : UserBucketPrompt)
    (policyName : option jsstring) (w : World) :
  obliging w ->
  defaultPolicy a = true ->
  let run := provision JSON_parse a policyName w in
  fst run = Returned tt
  /\ requests (trace (snd run))
     = requests (trace w)
       ++ with_client (client_of w (region a))
            (bucket_operations a
             ++ [IAM_createUser (username a);
                 IAM_createPolicy
                   (js "default-" ++ bucketName a ++ js "-policy")
                   (JSON_stringify (defaultUserPolicy (bucketName a)));
                 IAM_attachUserPolicy
                   (username a)
                   (js "arn:aws:iam::" ++ tmpl (AWS_ACCOUNT_ID (env w))
                    ++ js ":policy/default-" ++ bucketName a
                    ++ js "-policy");
                 IAM_createAccessKey (username a)]).
Proof.
  intros Hob Hdefault run. subst run.
  unfold bucket_operations, with_client, client_of, cors_rule.
  destruct (provision JSON_parse a policyName w) as [r w'] eqn:Hrun.
  unfold provision, writeCredentials in Hrun. rewrite Hdefault in Hrun.
  unfold_provisioner_in Hrun.
  destruct (allowPublicRead a); repeat run_send Hob Hrun; finish_run Hrun;
    split; reflexivity.
Qed.

Ltac run_read Hrun :=
  cbv beta iota
      delta [bind ret throw getenv console_log writeFileSync readFileSync
             emit set_files env cloud operator files trace] in Hrun.

(** X3. With a custom policy, a name in hand and a cloud that fulfils
    every request, the provisioning part registers under that name the
    re-serialization of whatever the policy file parses to, attaches
    the ARN built from the environment's account id and the name, and
    returns. *)
Theorem custom_policy_requests (a : UserBucketPrompt) (c : N)
    (name text : jsstring) (doc : json) (w : World) :
  obliging w ->
  defaultPolicy a = false ->
  files w !! policy_path = Some text ->
  JSON_parse text = Some doc ->
  let run := provision JSON_parse a (Some (c :: name)) w in
  fst run = Returned tt
  /\ requests (trace (snd run))
     = requests (trace w)
       ++ with_client (client_of w (region a))
            (bucket_operations a
             ++ [IAM_createUser (username a);
                 IAM_createPolicy (c :: name) (JSON_stringify doc);
                 IAM_attachUserPolicy
                   (username a)
                   (js "arn:aws:iam::" ++ tmpl (AWS_ACCOUNT_ID (env w))
                    ++ js ":policy/" ++ c :: name);
                 IAM_createAccessKey (username a)]).
Proof.
  intros Hob Hcustom Hfile Hparse run. subst run.
  unfold bucket_operations, with_client, client_of, cors_rule.
  cbv beta iota delta [files policy_path] in Hfile.
  destruct (provision JSON_parse a (Some (c :: name)) w) as [r w'] eqn:Hrun.
  unfold provision, writeCredentials in Hrun. rewrite Hcustom in Hrun.
  unfold_provisioner_in Hrun.
  destruct (allowPublicRead a); repeat run_send Hob Hrun;
    run_read Hrun; rewrite Hfile in Hrun;
    run_read Hrun; rewrite Hparse in Hrun;
    repeat run_send Hob Hrun; finish_run Hrun; split; reflexivity.
Qed.

(** X4. With a custom policy and a name in hand, a policy file that is
    missing or does not parse stops the provisioning part right after
    the user has been created: the bucket operations and [createUser]
    have been sent, nothing else, and the exception is [ENOENT] or
    [SyntaxError]. *)
Theorem custom_policy_unreadable (a : UserBucketPrompt) (c : N)
    (name : jsstring) (w : World) :
  obliging w ->
  defaultPolicy a = false ->
  let run := provision JSON_parse a (Some (c :: name)) w in
  (files w !! policy_path = None ->
   fst run = Thrown (ENOENT policy_path)
   /\ requests (trace (snd run))
      = requests (trace w)
        ++ with_client (client_of w (region a))
             (bucket_operations a ++ [IAM_createUser (username a)]))
  /\ (forall text,
        files w !! policy_path = Some text ->
        JSON_parse text = None ->
        fst run = Thrown SyntaxError
        /\ requests (trace (snd run))
           = requests (trace w)
             ++ with_client (client_of w (region a))
                  (bucket_operations a ++ [IAM_createUser (username a)])).
Proof.
  intros Hob Hcustom run. subst run.
  unfold bucket_operations, with_client, client_of, cors_rule.
  split.
  - intros Hfile.
    cbv beta iota delta [files policy_path] in Hfile.
    destruct (provision JSON_parse a (Some (c :: name)) w) as [r w'] eqn:Hrun.
    unfold provision, writeCredentials in Hrun. rewrite Hcustom in Hrun.
    unfold_provisioner_in Hrun.
    destruct (allowPublicRead a); repeat run_send Hob Hrun;
      run_read Hrun; rewrite Hfile in Hrun;
      finish_run Hrun; split; reflexivity.
  - intros text Hfile Hparse.
    cbv beta iota delta [files policy_path] in Hfile.
    destruct (provision JSON_parse a (Some (c :: name)) w) as [r w'] eqn:Hrun.
    unfold provision, writeCredentials in Hrun. rewrite Hcustom in Hrun.
    unfold_provisioner_in Hrun.
    destruct (allowPublicRead a); repeat run_send Hob Hrun;
      run_read Hrun; rewrite Hfile in Hrun;
      run_read Hrun; rewrite Hparse in Hrun;
      finish_run Hrun; split; reflexivity.
Qed.

(** ** The documents of the tool against its own schema *)

(** X11. The default policy and the public-read policy pass the schema the
    operator's policy is held to, the latter thanks to the members the
    schema ignores; the skeleton handed to the operator does not, and
    the complaint is the one about the missing action. *)
Theorem builtin_documents_vs_schema (bucketName : jsstring) :
  policy_document (defaultUserPolicy bucketName)
  /\ policy_document (publicReadPolicy bucketName)
  /\ policy_verdict (policySkeleton bucketName)
     = VMsg (js "Policy must have at least one action").
Proof.
  split; [apply defaultUserPolicy_document |].
  split; [apply policy_verdict_document |]; reflexivity.
Qed.

Lemma get_other (k key : jsstring) (v : json)
    (members : list (jsstring * json)) :
  k <> key -> get key ((k, v) :: members) = get key members.
Proof.
  intros Hne. simpl. unfold jsstring_eqb.
  destruct (decide (k = key)); [contradiction | reflexivity].
Qed.

(** X12. A member the schema does not name changes nothing, in the document
    and in any of its statements. *)
Theorem policy_verdict_ignores_members :
  (forall k v members,
     k <> js "Version" -> k <> js "Statement" ->
     policy_verdict (JObj ((k, v) :: members))
     = policy_verdict (JObj members))
  /\ (forall k v members before after,
        k <> js "Effect" -> k <> js "Action" -> k <> js "Resource" ->
        policy_verdict
          (document_of (before ++ JObj ((k, v) :: members) :: after))
        = policy_verdict (document_of (before ++ JObj members :: after))).
Proof.
  split.
  - intros k v members Hv Hs.
    unfold policy_verdict, policySchema.
    cbn [Zod.issues flat_map fst snd].
    rewrite !get_other by assumption. reflexivity.
  - intros k v members before after He Ha Hr.
    unfold policy_verdict, policySchema, document_of.
    cbn [Zod.issues flat_map fst snd get Zod.array].
    replace (jsstring_eqb (js "Version") (js "Version")) with true
      by reflexivity.
    replace (jsstring_eqb (js "Version") (js "Statement")) with false
      by reflexivity.
    replace (jsstring_eqb (js "Statement") (js "Statement")) with true
      by reflexivity.
    cbv beta iota.
    rewrite !List.flat_map_app.
    cbn [flat_map Zod.issues fst snd].
    rewrite !get_other by assumption. reflexivity.
Qed.

(** X13. What the default-policy helper does at its edges: without an
    account id in the environment it still registers the policy and
    returns an ARN whose account is the word "undefined"; when the
    request is rejected it throws the code and logs nothing. *)
Theorem getDefaultUserPolicy_edges (bucketName : jsstring)
    (region : option jsstring) (w : World) :
  let create :=
    {| client := client_of w region;
       operation :=
         IAM_createPolicy
           (js "default-" ++ bucketName ++ js "-policy")
           (JSON_stringify (defaultUserPolicy bucketName)) |} in
  (forall key,
     cloud w (trace w) create = Fulfilled key ->
     AWS_ACCOUNT_ID (env w) = None ->
     getDefaultUserPolicy bucketName region w
     = (Returned (js "arn:aws:iam::undefined:policy/default-"
                  ++ bucketName ++ js "-policy"),
        emit (ConsoleLog (js "Policy created")) (emit (Aws create) w)))
  /\ (forall code,
        cloud w (trace w) create = Rejected code ->
        getDefaultUserPolicy bucketName region w
        = (Thrown (AwsError code), emit (Aws create) w)).
Proof.
  intros create. split.
  - intros key Hcloud Haccount.
    unfold getDefaultUserPolicy, createPolicy, createIamObject, bind,
      getenv, ret, send, console_log.
    fold (client_of w region). fold create.
    rewrite Hcloud. cbn [env emit]. rewrite Haccount. reflexivity.
  - intros code Hcloud.
    unfold getDefaultUserPolicy, createPolicy, createIamObject, bind,
      getenv, ret, send, console_log.
    fold (client_of w region). fold create.
    rewrite Hcloud. reflexivity.
Qed.


(** ** The flow from end to end *)


Lemma quiet_emit (e : Event) (w0 w : World) :
  is_request e = false ->
  requests (trace w) = requests (trace w0) ->
  requests (trace (emit e w)) = requests (trace w0).
Proof.
  intros He H. cbn [trace emit]. rewrite requests_app, H.
  destruct e; try discriminate; apply List.app_nil_r.
Qed.

Ltac wside :=
  solve [ exact Logic.I | intros; exact Logic.I
        | intros; cbv beta; assumption
        | intros; cbv beta; apply quiet_emit; [reflexivity | assumption]
        | intros; cbv beta;
          match goal with
          | |- match ?v with _ => _ end => destruct v
          end; solve [assumption | exact Logic.I] ].

Lemma main_prompts_first (w0 : World) :
  hoare (fun w => requests (trace w) = requests (trace w0))
        (fun _ => True) (fun _ _ => True) (fun _ _ => True)
        (fun w => requests (trace w) = requests (trace w0))
        (main JSON_parse).
Proof.
  unfold main.
  eapply (@hoare_bind _ _ _ _ _ _
            (fun _ w => requests (trace w) = requests (trace w0))).
  { unfold_all.
    repeat (hstep (fun w : World => requests (trace w) = requests (trace w0));
            try wside). }
  intros a.
  eapply (@hoare_bind _ _ _ _ _ _ (fun _ _ => True)).
  { unfold_all.
    repeat (hstep (fun w : World => requests (trace w) = requests (trace w0));
            try wside). }
  intros policyName.
  apply hoare_pre with (I := fun _ => True); [auto |].
  unfold_all. repeat (hstep (fun _ : World => True); try wside).
Qed.

(** X15. A flow that is waiting for the operator has not sent any request:
    every question comes before the first request. *)
Theorem main_asks_before_it_sends (w : World) :
  fst (main JSON_parse w) = Waiting ->
  requests (trace (snd (main JSON_parse w))) = requests (trace w).
Proof.
  intros Hwait.
  destruct (@main_prompts_first w w eq_refl) as (_ & Hq).
  rewrite Hwait in Hq. exact Hq.
Qed.

End MoreFlowFacts.

(** ** The further statements at work on the sample run *)

Lemma main_fail_fast_witness :
  fst (main sample_parse (taken_world sample_default_script))
  = Thrown (AwsError (js "EntityAlreadyExists"))
  /\ exists t1 q,
       trace (snd (main sample_parse (taken_world sample_default_script)))
       = trace (taken_world sample_default_script) ++ t1 ++ [Aws q]
       /\ cloud (taken_world sample_default_script)
                (trace (taken_world sample_default_script) ++ t1) q
          = Rejected (js "EntityAlreadyExists").
Proof.
  assert (H : fst (main sample_parse (taken_world sample_default_script))
              = Thrown (AwsError (js "EntityAlreadyExists"))).
  { refine (proj2 (proj1 (@main_fail_fast sample_parse
                            (taken_world sample_default_script))
                     (removelast
                        (trace (snd (main sample_parse
                                       (taken_world sample_default_script)))))
                     {| client := client_of (taken_world [])
                                            (Some (js "us-east-1"));
                        operation := IAM_createUser (js "deployer") |}
                     [] (js "EntityAlreadyExists") _ _));
      vm_compute; reflexivity. }
  split; [exact H |].
  exact (proj2 (@main_fail_fast sample_parse
                  (taken_world sample_default_script))
           (js "EntityAlreadyExists") H).
Defined.

Lemma default_policy_requests_witness :
  fst (provision sample_parse sample_default_answers None (sample_world []))
  = Returned tt.
Proof.
  exact (proj1 (@default_policy_requests sample_parse sample_default_answers
                  None (sample_world []) (sample_obliging []) eq_refl)).
Defined.

Lemma custom_policy_requests_witness :
  fst (provision sample_parse sample_answers (Some (js "my-policy"))
                 edited_world)
  = Returned tt.
Proof.
  refine (proj1 (@custom_policy_requests sample_parse sample_answers
                   (unit_of "m") (js "y-policy")
                   (JSON_stringify_space sample_policy 4) sample_policy
                   edited_world _ eq_refl _ _)).
  - intros history r. unfold edited_world, sample_cloud. simpl.
    destruct (operation r); eexists; reflexivity.
  - vm_compute. reflexivity.
  - vm_compute. reflexivity.
Defined.

Lemma custom_policy_unreadable_witness :
  fst (provision sample_parse sample_answers (Some (js "my-policy"))
                 (sample_world []))
  = Thrown (ENOENT policy_path).
Proof.
  refine (proj1 (proj1 (@custom_policy_unreadable sample_parse sample_answers
                          (unit_of "m") (js "y-policy") (sample_world [])
                          (sample_obliging []) eq_refl) _)).
  vm_compute. reflexivity.
Defined.

Lemma prompts_answers_checked_witness :
  checked_answers sample_default_answers.
Proof.
  refine (proj2 (proj2 (proj1 prompts_answers_checked
                          (sample_world sample_default_script)))
            sample_default_answers _).
  vm_compute. reflexivity.
Defined.

Lemma customPolicyPrompt_ready_witness :
  policy_file_ready sample_parse
    (snd (customPolicyPrompt sample_parse
            (sample_world [typed "";
                           saved (JSON_stringify_space sample_policy 4)]))).
Proof.
  refine (proj2 (proj2 (@customPolicyPrompt_ready sample_parse
                          (sample_world
                             [typed "";
                              saved (JSON_stringify_space sample_policy 4)])))
            _).
  vm_compute. reflexivity.
Defined.

Lemma main_throws_only_witness :
  (exists code, AwsError (js "EntityAlreadyExists") = AwsError code)
  \/ AwsError (js "EntityAlreadyExists") = ENOENT policy_path.
Proof.
  refine (@main_throws_only sample_parse (taken_world sample_default_script)
            (AwsError (js "EntityAlreadyExists")) _).
  vm_compute. reflexivity.
Defined.

Lemma policy_verdict_ignores_members_witness :
  policy_verdict
    (JObj [(js "Id", JStr (js "uploads"));
           (js "Version", JStr (js "2012-10-17"));
           (js "Statement", JArr [sample_statement])])
  = policy_verdict sample_policy.
Proof.
  assert (H1 : js "Id" <> js "Version") by discriminate.
  assert (H2 : js "Id" <> js "Statement") by discriminate.
  exact (proj1 policy_verdict_ignores_members
           (js "Id") (JStr (js "uploads"))
           [(js "Version", JStr (js "2012-10-17"));
            (js "Statement", JArr [sample_statement])] H1 H2).
Defined.

Lemma getDefaultUserPolicy_edges_witness :
  fst (getDefaultUserPolicy (js "my-app-assets") None no_account_world)
  = Returned (js "arn:aws:iam::undefined:policy/default-my-app-assets-policy")
  /\ fst (getDefaultUserPolicy (js "my-app-assets") None (taken_world []))
     = Thrown (AwsError (js "EntityAlreadyExists")).
Proof.
  split.
  - rewrite (proj1 (@getDefaultUserPolicy_edges (js "my-app-assets") None
                      no_account_world) None eq_refl eq_refl).
    reflexivity.
  - rewrite (proj2 (@getDefaultUserPolicy_edges (js "my-app-assets") None
                      (taken_world []))
               (js "EntityAlreadyExists") eq_refl).
    reflexivity.
Defined.


Lemma main_asks_before_it_sends_witness :
  requests (trace (snd (main sample_parse
                          (sample_world [typed "my-app-assets"]))))
  = [].
Proof.
  refine (@main_asks_before_it_sends sample_parse
            (sample_world [typed "my-app-assets"]) _).
  vm_compute. reflexivity.
Defined.

